(** * n8n to Sim workflow migration: a shallow embedding and its properties

    The development follows the three source files of the migration library:
    - [types.ts]     : the record types of both workflow formats;
    - [mappings.ts]  : the static type table, [getSimBlockType], [isTriggerNode];
    - [converter.ts] : [convertN8NToSim], [convertParametersToSubBlocks],
                       [generateOutputsForBlockType], [validateN8NWorkflow].

    Conventions of the embedding.
    - A JavaScript string is a [string]; one character stands for one code
      unit below 256, that is for one character of the Basic Latin and
      Latin-1 ranges. The regular expression of the resolver looks at [A-Z];
      [toLowerCase] lowers the uppercase letters of both ranges.
    - A JSON number is an integer ([Z]); no property below looks inside one,
      except for the truthiness of zero.
    - A JavaScript object used as a record keyed by strings is a
      [gmap string _] of its own entries. A read [obj[key]] with a key that
      is not fixed also reaches the members of [Object.prototype], and a
      write [obj[key] = value] with the key [__proto__] reaches its setter:
      see [read] and [assign].
    - [Object.entries] of the connection table is an association list, since
      the order of its entries decides the order of edges and warnings. *)

From Stdlib Require Import ZArith Ascii String List Lia.
From stdpp Require Import base option list gmap strings fin_maps.

Local Open Scope nat_scope.

(** ** JavaScript string primitives used by the library *)

Module JsString.

(** [c] is one of [A-Z], the class of the regular expression. *)
Definition is_upper (c : ascii) : bool :=
  (65 <=? nat_of_ascii c) && (nat_of_ascii c <=? 90).

(** [c] is an uppercase letter: one of [A-Z], or one of the Latin-1 letters
    from 192 to 222, among which 215 is the multiplication sign and no
    letter. The lowercase partner of each is 32 code units up; no other code
    unit below 256 changes in [toLowerCase]. *)
Definition is_uppercase (c : ascii) : bool :=
  is_upper c
  || ((192 <=? nat_of_ascii c) && (nat_of_ascii c <=? 222)
      && negb (nat_of_ascii c =? 215)).

Definition lower_char (c : ascii) : ascii :=
  if is_uppercase c then ascii_of_nat (nat_of_ascii c + 32) else c.

(** [s.toLowerCase()] *)
Fixpoint toLowerCase (s : string) : string :=
  match s with
  | EmptyString => EmptyString
  | String c r => String (lower_char c) (toLowerCase r)
  end.

(** [s.replace(/([A-Z])/g, '_$1')]: every match of the class is replaced by
    an underscore followed by the matched letter. *)
Fixpoint replace_upper (s : string) : string :=
  match s with
  | EmptyString => EmptyString
  | String c r =>
      if is_upper c then String "_" (String c (replace_upper r))
      else String c (replace_upper r)
  end.

(** [s.split('.')]: never empty; an empty [s] gives one empty part. *)
Fixpoint split_dot (s : string) : list string :=
  match s with
  | EmptyString => [EmptyString]
  | String c r =>
      if Ascii.eqb c "." then EmptyString :: split_dot r
      else match split_dot r with
           | p :: ps => String c p :: ps
           | [] => [String c EmptyString]
           end
  end.

(** [s.endsWith(suffix)] *)
Definition endsWith (s suffix : string) : bool :=
  let n := String.length s in
  let m := String.length suffix in
  (m <=? n) && String.eqb (substring (n - m) m s) suffix.

(** The string [s] has a character [c]. *)
Fixpoint contains_char (c : ascii) (s : string) : bool :=
  match s with
  | EmptyString => false
  | String d r => Ascii.eqb d c || contains_char c r
  end.

(** [sub] occurs in [s]: what it means for a message to mention a name. *)
Definition mentions (s sub : string) : Prop :=
  exists pre post, s = pre +:+ sub +:+ post.

End JsString.

(** ** Values and results shared by all files *)

Module Js.

(** The double quote, for the message templates. *)
Definition dq : string := String (ascii_of_nat 34) EmptyString.

(** A parsed JSON value; the fields of an object are its own entries, in
    order. *)
#[warnings="-register-all"]
Inductive JValue :=
| JNull
| JBool (b : bool)
| JNum (n : Z)
| JStr (s : string)
| JArr (items : list JValue)
| JObj (fields : list (string * JValue)).

(** The names of the members of [Object.prototype], which every object made
    by a literal or by [JSON.parse] inherits. *)
Definition Object_prototype : list string :=
  [ "constructor"; "__defineGetter__"; "__defineSetter__"; "hasOwnProperty";
    "__lookupGetter__"; "__lookupSetter__"; "isPrototypeOf";
    "propertyIsEnumerable"; "toString"; "valueOf"; "__proto__";
    "toLocaleString" ].

(** A value of type [any] as the converter hands it on: data, or the member
    of [Object.prototype] of a name, which is a built-in function (and for
    [__proto__] the prototype itself). *)
Inductive Value :=
| Data (v : JValue)
| Inherited (member : string).

(** [obj[key]] for a parsed object [obj] and any [key]: the own entry, or
    else the inherited member of that name, or else [undefined]. *)
Definition read (obj : gmap string JValue) (key : string) : option Value :=
  match obj !! key with
  | Some v => Some (Data v)
  | None =>
      if existsb (String.eqb key) Object_prototype then Some (Inherited key)
      else None
  end.

(** What a conditional, [!v] and [a || b] look at. *)
Definition truthy (v : JValue) : bool :=
  match v with
  | JNull => false
  | JBool b => b
  | JNum n => negb (n =? 0)%Z
  | JStr s => negb (String.eqb s EmptyString)
  | JArr _ | JObj _ => true
  end.

(** The same for a value that may be [undefined]. *)
Definition truthy_opt (o : option JValue) : bool :=
  match o with
  | Some v => truthy v
  | None => false
  end.

(** [a || b] *)
Definition js_or (a b : option JValue) : option JValue :=
  if truthy_opt a then a else b.

(** A call either returns or throws; [msg] is the message of the error. *)
Inductive outcome (A : Type) :=
| Returns (a : A)
| Throws (msg : string).
Arguments Returns {A} a.
Arguments Throws {A} msg.

Definition bind {A B} (m : outcome A) (k : A -> outcome B) : outcome B :=
  match m with
  | Returns a => k a
  | Throws msg => Throws msg
  end.

End Js.

(** ** types.ts *)

Module Types.
Import Js.

(** One entry of [credentials]. *)
Record Credential := {
  cred_id : string;
  cred_name : string;
}.

Record N8NNode := {
  node_name : string;
  node_type : string;
  node_position : Z * Z;
  node_parameters : gmap string JValue;
  node_credentials : option (gmap string Credential);
  node_typeVersion : Z;
}.

Record N8NConnection := {
  conn_node : string;
  conn_type : string;
  conn_index : Z;
}.

(** The value of one key of [connections]; [main] may be missing, which the
    converter tolerates. *)
Record N8NConnectionData := {
  main : option (list (list N8NConnection));
}.

Record N8NWorkflow := {
  wf_name : option string;
  wf_nodes : list N8NNode;
  wf_connections : list (string * N8NConnectionData);
}.

(** [value] is of type [any]: [None] stands for [undefined]. *)
Record SimSubBlock := {
  sb_id : string;
  sb_type : string;
  sb_value : option Value;
}.

Record OutputPort := {
  port_type : string;
  port_description : string;
}.

Record Position := {
  pos_x : Z;
  pos_y : Z;
}.

Record Layout := {
  measuredWidth : Z;
  measuredHeight : Z;
}.

Record SimBlock := {
  block_id : string;
  block_type : string;
  block_name : string;
  block_position : Position;
  block_enabled : bool;
  block_horizontalHandles : bool;
  block_advancedMode : bool;
  block_triggerMode : bool;
  block_height : Z;
  block_subBlocks : gmap string SimSubBlock;
  block_outputs : gmap string OutputPort;
  block_data : gmap string JValue;
  block_layout : Layout;
}.

Record SimEdge := {
  edge_id : string;
  edge_source : string;
  edge_target : string;
  edge_sourceHandle : string;
  edge_targetHandle : string;
  edge_type : string;
  edge_data : gmap string JValue;
}.

Record Metadata := {
  meta_name : string;
  meta_description : string;
  meta_exportedAt : string;
}.

Record SimState := {
  state_blocks : gmap string SimBlock;
  state_edges : list SimEdge;
  state_loops : gmap string JValue;
  state_parallels : gmap string JValue;
  state_metadata : Metadata;
  state_variables : list JValue;
}.

Record SimWorkflow := {
  version : string;
  exportedAt : string;
  state : SimState;
}.

Record MigrationResult := {
  success : bool;
  workflow : option SimWorkflow;
  error : option string;
  warnings : option (list string);
}.

Record BlockTypeMapping := {
  n8nType : string;
  simType : string;
  defaultHeight : Z;
}.

End Types.

(** ** mappings.ts *)

Module Mappings.
Import JsString Types.

Definition mk (a b : string) (h : Z) : BlockTypeMapping :=
  {| n8nType := a; simType := b; defaultHeight := h |}.

Definition BLOCK_TYPE_MAPPINGS : list BlockTypeMapping := [
  (* Triggers *)
  mk "n8n-nodes-base.cron" "schedule" 172;
  mk "n8n-nodes-base.webhook" "webhook" 172;
  mk "n8n-nodes-base.manualTrigger" "manual_trigger" 143;
  mk "n8n-nodes-base.scheduleTrigger" "schedule" 172;
  (* Database blocks *)
  mk "n8n-nodes-base.mySql" "mysql" 230;
  mk "n8n-nodes-base.postgres" "postgresql" 230;
  mk "n8n-nodes-base.mongodb" "mongodb" 230;
  mk "n8n-nodes-base.redis" "function" 230;
  (* Communication blocks *)
  mk "n8n-nodes-base.gmail" "gmail" 288;
  mk "n8n-nodes-base.slack" "slack" 317;
  mk "n8n-nodes-base.telegram" "telegram" 259;
  mk "n8n-nodes-base.discord" "discord" 259;
  mk "n8n-nodes-base.microsoftTeams" "microsoft_teams" 143;
  mk "n8n-nodes-base.microsoftOutlook" "outlook" 201;
  (* Storage & File blocks *)
  mk "n8n-nodes-base.googleSheets" "google_sheets" 259;
  mk "n8n-nodes-base.googleDrive" "google_drive" 259;
  mk "n8n-nodes-base.dropbox" "dropbox" 259;
  mk "n8n-nodes-base.airtable" "airtable" 259;
  (* Logic blocks *)
  mk "n8n-nodes-base.if" "condition" 259;
  mk "n8n-nodes-base.switch" "router" 259;
  mk "n8n-nodes-base.function" "function" 143;
  mk "n8n-nodes-base.code" "function" 143;
  (* HTTP & API blocks *)
  mk "n8n-nodes-base.httpRequest" "api" 259;
  mk "n8n-nodes-base.webhook" "webhook" 172;
  (* Payment blocks *)
  mk "n8n-nodes-base.stripe" "stripe" 143;
  (* Other common blocks *)
  mk "n8n-nodes-base.wait" "wait" 143;
  mk "n8n-nodes-base.set" "function" 143;
  mk "n8n-nodes-base.merge" "function" 143
]%Z.

(** [table.find(m => m.n8nType === t)] *)
Definition find_mapping (table : list BlockTypeMapping) (t : string)
  : option BlockTypeMapping :=
  List.find (fun m => String.eqb (n8nType m) t) table.

(** The result is the pair [{ simType, defaultHeight }]. *)
Definition getSimBlockType (t : string) : string * Z :=
  match find_mapping BLOCK_TYPE_MAPPINGS t with
  | Some mapping => (simType mapping, defaultHeight mapping)
  | None =>
      let parts := split_dot t in
      if 1 <? length parts then
        let baseType := List.last parts EmptyString in
        let snakeCase := toLowerCase (replace_upper baseType) in
        (snakeCase, 230%Z)
      else ("function", 143%Z)
  end.

Definition triggerTypes : list string := [
  "n8n-nodes-base.cron";
  "n8n-nodes-base.webhook";
  "n8n-nodes-base.manualTrigger";
  "n8n-nodes-base.scheduleTrigger";
  "n8n-nodes-base.stripe";
  "n8n-nodes-base.telegramTrigger";
  "n8n-nodes-base.slackTrigger";
  "n8n-nodes-base.githubTrigger"
].

(** [list.includes(x)] *)
Definition includes (l : list string) (x : string) : bool :=
  existsb (String.eqb x) l.

Definition isTriggerNode (node : N8NNode) (isFirstNode : bool) : bool :=
  if includes triggerTypes (node_type node) then true
  else if endsWith (node_type node) "Trigger" then true
  else isFirstNode.

Definition DEFAULT_LAYOUT : Layout :=
  {| measuredWidth := 250; measuredHeight := 172 |}.

End Mappings.


(** ** The block catalogue of the target platform

    [getBlock] and [isValidBlockType] are imported from the platform's own
    block module, and [uuidv4], [JSON.stringify] and the clock are library
    calls: the converter is written against them, and so is every theorem. *)

Module Registry.
Import Js.

(** Modelled from the spec: the declared default of a sub-block definition,
    a fixed value or a zero-argument function computed on demand. *)
Inductive SubBlockDefault :=
| FixedValue (v : JValue)
| ComputedValue (f : unit -> JValue).

(** Modelled from the spec: one sub-block declaration [{id, type, value?}] of
    a block definition. *)
Record SubBlockConfig := {
  def_id : string;
  def_type : string;
  def_value : option SubBlockDefault;
}.

(** Modelled from the spec: one output declaration, a bare type string or
    [{type, description?}]. *)
Inductive OutputDef :=
| OutputTypeName (t : string)
| OutputObject (t : string) (description : option string).

(** Modelled from the spec: a block definition with its ordered sub-block
    declarations and its output declarations; either may be missing. *)
Record BlockConfig := {
  cfg_subBlocks : option (list SubBlockConfig);
  cfg_outputs : option (gmap string OutputDef);
}.

(** The collaborators of one conversion run. [uuidv4 n] is the identifier
    that the [n]-th call of the generator returns in this run, and
    [Date_toISOString n] the time stamp that the [n]-th reading of the clock
    gives. *)
Class Platform := {
  uuidv4 : nat -> string;
  isValidBlockType : string -> bool;
  getBlock : string -> option BlockConfig;
  JSON_stringify : JValue -> string;
  Date_toISOString : nat -> string;
}.

End Registry.

(** ** converter.ts *)

Module Converter.
Import Js JsString Types Mappings Registry.

(** The bindings that [convertN8NToSim] mutates, and the number of
    identifiers drawn so far. *)
Record ConvState := {
  st_warnings : list string;
  st_blocks : gmap string SimBlock;
  st_edges : list SimEdge;
  st_nodeIdMap : gmap string string;
  st_uuids : nat;
}.

Definition initial : ConvState :=
  {| st_warnings := []; st_blocks := ∅; st_edges := [];
     st_nodeIdMap := ∅; st_uuids := 0 |}.

(** [obj[key] = value] for a record [obj] made by [{}] and a [value] that
    is an object. Under the key [__proto__] the write reaches the setter that
    [obj] inherits: it replaces the prototype of [obj] and gives [obj] no
    entry. The converter reads no sub-block record that it has written, so
    only the entries count. The block map is written and read under
    identifiers of the generator, which are never names of members of
    [Object.prototype]: there a write is an insertion and a read a lookup. *)
Definition assign {B} (key : string) (value : B) (obj : gmap string B)
  : gmap string B :=
  if String.eqb key "__proto__" then obj else <[key := value]> obj.

(** [Object.entries(obj).forEach(([key, value]) => { out[key] = f(key, value) })],
    from an empty [out], for the entries of a parsed object. *)
Definition assign_entries {A B} (f : string -> A -> B) (obj : gmap string A)
  : gmap string B :=
  map_fold (fun key value out => assign key (f key value) out) ∅ obj.

(** [for (const [k, v] of Object.entries(obj)) out[k] = f(k, v)], from an
    empty [out], for the output declarations of the catalogue. These are
    written as object literals, where [__proto__] is no key: every write is
    an insertion. *)
Definition map_entries {A B} (f : string -> A -> B) (obj : gmap string A)
  : gmap string B :=
  map_fold (fun k v out => <[k := f k v]> out) ∅ obj.

(** [for (const def of defs) out[def.id] = g(def)] *)
Definition declare {B} (g : SubBlockConfig -> B) (out : gmap string B)
    (defs : list SubBlockConfig) : gmap string B :=
  foldl (fun subBlocks def => assign (def_id def) (g def) subBlocks) out defs.

Definition STICKY_NOTE : string := "n8n-nodes-base.stickyNote".

Definition unavailable_warning (simType : string) (node : N8NNode) : string :=
  "Block type " +:+ dq +:+ simType +:+ dq +:+ " not available in Sim. Node "
  +:+ dq +:+ node_name node +:+ dq +:+ " (" +:+ node_type node
  +:+ ") converted to function block.".

Definition source_warning (sourceName : string) : string :=
  "Source node " +:+ dq +:+ sourceName +:+ dq +:+ " not found in node map".

Definition target_warning (targetName : string) : string :=
  "Target node " +:+ dq +:+ targetName +:+ dq +:+ " not found in node map".

(** [nodeIdMap.get(name)] followed by the test [!id]: the identifier when
    the test lets it through, that is when it is neither [undefined] nor the
    empty string. *)
Definition resolve (nodeIdMap : gmap string string) (name : string)
  : option string :=
  match nodeIdMap !! name with
  | Some id => if String.eqb id EmptyString then None else Some id
  | None => None
  end.

Definition push_warning (st : ConvState) (w : string) : ConvState :=
  {| st_warnings := st_warnings st ++ [w];
     st_blocks := st_blocks st;
     st_edges := st_edges st;
     st_nodeIdMap := st_nodeIdMap st;
     st_uuids := st_uuids st |}.

Section WithPlatform.
Context `{Platform}.

(** The value that the definition branch of [convertParametersToSubBlocks]
    gives to the slot of [subBlockDef]. The first test reads the parameters
    under the identifier of the slot, whatever it is; the later branches
    read them under fixed keys, none of which names a member of
    [Object.prototype], and give data. *)
Definition subBlockValue (node : N8NNode) (simType : string)
    (subBlockDef : SubBlockConfig) : option Value :=
  let subBlockId := def_id subBlockDef in
  let parameters := node_parameters node in
  match read parameters subBlockId with
  | Some v => Some v
  | None =>
      Data <$>
      if String.eqb subBlockId "code" then
        js_or (js_or (js_or (js_or (parameters !! "jsCode")
                                   (parameters !! "functionCode"))
                            (parameters !! "code"))
                     (parameters !! "script"))
              (Some JNull)
      else if String.eqb subBlockId "message"
              && truthy_opt (js_or (parameters !! "text") (parameters !! "body"))
      then js_or (js_or (parameters !! "text") (parameters !! "body"))
                 (parameters !! "message")
      else if String.eqb subBlockId "to" && truthy_opt (parameters !! "sendTo")
      then parameters !! "sendTo"
      else if String.eqb subBlockId "language" && String.eqb simType "function"
      then Some (JStr "javascript")
      else if String.eqb subBlockId "condition"
              && truthy_opt (parameters !! "conditions")
      then JStr ∘ JSON_stringify <$> parameters !! "conditions"
      else match def_value subBlockDef with
           | Some (ComputedValue f) => Some (f tt)
           | Some (FixedValue v) => Some v
           | None => Some JNull
           end
  end.

Definition subBlockOfDef (node : N8NNode) (simType : string)
    (subBlockDef : SubBlockConfig) : SimSubBlock :=
  {| sb_id := def_id subBlockDef;
     sb_type := def_type subBlockDef;
     sb_value := subBlockValue node simType subBlockDef |}.

Definition subBlockOfParameter (key : string) (value : JValue) : SimSubBlock :=
  {| sb_id := key;
     sb_type := match value with
                | JStr s => if 100 <? String.length s then "long-input"
                            else "short-input"
                | _ => "short-input"
                end;
     sb_value := Some (Data value) |}.

Definition convertParametersToSubBlocks (node : N8NNode) (simType : string)
  : gmap string SimSubBlock :=
  match getBlock simType ≫= cfg_subBlocks with
  | Some defs => declare (subBlockOfDef node simType) ∅ defs
  | None => assign_entries subBlockOfParameter (node_parameters node)
  end.

Definition outputOfDef (key : string) (outputDef : OutputDef) : OutputPort :=
  match outputDef with
  | OutputTypeName t =>
      {| port_type := t; port_description := key +:+ " output" |}
  | OutputObject t d =>
      {| port_type := t;
         port_description :=
           match d with
           | Some s => if String.eqb s EmptyString then key +:+ " output" else s
           | None => key +:+ " output"
           end |}
  end.

Definition generateOutputsForBlockType (blockType : string)
  : gmap string OutputPort :=
  match getBlock blockType ≫= cfg_outputs with
  | Some outs => map_entries outputOfDef outs
  | None =>
      {[ "result" := {| port_type := "any";
                        port_description := "Output from block execution" |} ]}
  end.

(** Lines 36-43 of the callback of step 1: the type and height of the block
    after the existence check, and the warnings pushed on the way. *)
Definition resolveBlockType (node : N8NNode) : string * Z * list string :=
  let '(simType, defaultHeight) := getSimBlockType (node_type node) in
  if negb (isValidBlockType simType)
  then ("function", 143%Z, [unavailable_warning simType node])
  else (simType, defaultHeight, []).

(** Lines 45-73: the block record built for [node]. *)
Definition simBlockOf (blockId : string) (node : N8NNode) (index : nat)
  : SimBlock :=
  let '(simType, defaultHeight, _) := resolveBlockType node in
  let triggerMode := isTriggerNode node (index =? 0) in
  let subBlocks := convertParametersToSubBlocks node simType in
  let outputs := generateOutputsForBlockType simType in
  {| block_id := blockId;
     block_type := simType;
     block_name := node_name node;
     block_position := {| pos_x := fst (node_position node);
                          pos_y := snd (node_position node) |};
     block_enabled := true;
     block_horizontalHandles := true;
     block_advancedMode := false;
     block_triggerMode := triggerMode;
     block_height := defaultHeight;
     block_subBlocks := subBlocks;
     block_outputs := outputs;
     block_data := ∅;
     block_layout := {| measuredWidth := measuredWidth DEFAULT_LAYOUT;
                        measuredHeight := defaultHeight |} |}.

Definition is_sticky (node : N8NNode) : bool :=
  String.eqb (node_type node) STICKY_NOTE.

(** Step 1: the callback of [n8nWorkflow.nodes.forEach((node, index) => ...)]. *)
Definition convertNode (st : ConvState) (node : N8NNode) (index : nat)
  : ConvState :=
  if is_sticky node then st
  else
    let blockId := uuidv4 (st_uuids st) in
    {| st_warnings := st_warnings st ++ (resolveBlockType node).2;
       st_blocks := <[blockId := simBlockOf blockId node index]> (st_blocks st);
       st_edges := st_edges st;
       st_nodeIdMap := <[node_name node := blockId]> (st_nodeIdMap st);
       st_uuids := S (st_uuids st) |}.

Fixpoint convertNodes (st : ConvState) (nodes : list N8NNode) (index : nat)
  : ConvState :=
  match nodes with
  | [] => st
  | node :: rest => convertNodes (convertNode st node index) rest (S index)
  end.

(** Step 2: the body of [connectionGroup.forEach((connection) => ...)].
    Reading [sourceBlock.type] throws when [blocks[sourceId]] is undefined. *)
Definition convertConnection (sourceId : string) (outputIndex : nat)
    (st : ConvState) (connection : N8NConnection) : outcome ConvState :=
  match resolve (st_nodeIdMap st) (conn_node connection) with
  | None => Returns (push_warning st (target_warning (conn_node connection)))
  | Some targetId =>
      match st_blocks st !! sourceId with
      | None => Throws "Cannot read properties of undefined (reading 'type')"
      | Some sourceBlock =>
          let sourceHandle :=
            if String.eqb (block_type sourceBlock) "condition"
            then (if outputIndex =? 0 then "condition-cond-true"
                  else "condition-cond-else")
            else "source" in
          let edge :=
            {| edge_id := uuidv4 (st_uuids st);
               edge_source := sourceId;
               edge_target := targetId;
               edge_sourceHandle := sourceHandle;
               edge_targetHandle := "target";
               edge_type := "default";
               edge_data := ∅ |} in
          Returns {| st_warnings := st_warnings st;
                     st_blocks := st_blocks st;
                     st_edges := st_edges st ++ [edge];
                     st_nodeIdMap := st_nodeIdMap st;
                     st_uuids := S (st_uuids st) |}
      end
  end.

Fixpoint convertGroup (sourceId : string) (outputIndex : nat)
    (st : ConvState) (connectionGroup : list N8NConnection)
  : outcome ConvState :=
  match connectionGroup with
  | [] => Returns st
  | connection :: rest =>
      bind (convertConnection sourceId outputIndex st connection)
           (fun st' => convertGroup sourceId outputIndex st' rest)
  end.

Fixpoint convertGroups (sourceId : string) (st : ConvState)
    (mainConnections : list (list N8NConnection)) (outputIndex : nat)
  : outcome ConvState :=
  match mainConnections with
  | [] => Returns st
  | connectionGroup :: rest =>
      bind (convertGroup sourceId outputIndex st connectionGroup)
           (fun st' => convertGroups sourceId st' rest (S outputIndex))
  end.

(** The body of the loop over [Object.entries(n8nWorkflow.connections)]. *)
Definition convertEntry (st : ConvState)
    (entry : string * N8NConnectionData) : outcome ConvState :=
  let '(sourceName, connectionData) := entry in
  match resolve (st_nodeIdMap st) sourceName with
  | None => Returns (push_warning st (source_warning sourceName))
  | Some sourceId =>
      let mainConnections := default [] (main connectionData) in
      convertGroups sourceId st mainConnections 0
  end.

Fixpoint convertConnections (st : ConvState)
    (entries : list (string * N8NConnectionData)) : outcome ConvState :=
  match entries with
  | [] => Returns st
  | entry :: rest =>
      bind (convertEntry st entry) (fun st' => convertConnections st' rest)
  end.

(** Steps 1 and 2 on the fresh bindings of a call. *)
Definition convertSteps (n8nWorkflow : N8NWorkflow) : outcome ConvState :=
  convertConnections (convertNodes initial (wf_nodes n8nWorkflow) 0)
                     (wf_connections n8nWorkflow).

(** Step 3 and the [try]/[catch] around the whole body. *)
Definition convertN8NToSim (n8nWorkflow : N8NWorkflow) : MigrationResult :=
  match convertSteps n8nWorkflow with
  | Returns st =>
      let simWorkflow :=
        {| version := "1.0";
           exportedAt := Date_toISOString 0;
           state :=
             {| state_blocks := st_blocks st;
                state_edges := st_edges st;
                state_loops := ∅;
                state_parallels := ∅;
                state_metadata :=
                  {| meta_name :=
                       match wf_name n8nWorkflow with
                       | Some s => if String.eqb s EmptyString
                                   then "Migrated from n8n" else s
                       | None => "Migrated from n8n"
                       end;
                     meta_description :=
                       "Workflow migrated from n8n automation platform";
                     meta_exportedAt := Date_toISOString 1 |};
                state_variables := [] |} |} in
      {| success := true;
         workflow := Some simWorkflow;
         error := None;
         warnings := if 0 <? length (st_warnings st)
                     then Some (st_warnings st) else None |}
  | Throws msg =>
      {| success := false; workflow := None; error := Some msg;
         warnings := None |}
  end.

End WithPlatform.

(** What a caller reads off a result. *)
Definition result_blocks (r : MigrationResult) : gmap string SimBlock :=
  from_option (state_blocks ∘ state) ∅ (workflow r).

Definition result_edges (r : MigrationResult) : list SimEdge :=
  from_option (state_edges ∘ state) [] (workflow r).

Definition result_warnings (r : MigrationResult) : list string :=
  default [] (warnings r).

(** The verdict of the structural check. *)
Record Verdict := {
  valid : bool;
  verdict_error : option string;
}.

Definition invalid (msg : string) : outcome Verdict :=
  Returns {| valid := false; verdict_error := Some msg |}.

(** [v.key] for one of the keys the check reads ([nodes], [connections],
    [name], [type], [position]): an own entry of an object, [undefined] on an
    array or a primitive, and a [TypeError] on [null]. *)
Definition property (v : JValue) (key : string) : outcome (option JValue) :=
  match v with
  | JNull =>
      Throws ("Cannot read properties of null (reading '" +:+ key +:+ "')")
  | JObj fields => Returns (snd <$> List.find (fun kv => String.eqb (fst kv) key) fields)
  | _ => Returns None
  end.

(** [typeof v === 'object'] *)
Definition typeof_object (v : JValue) : bool :=
  match v with
  | JNull | JArr _ | JObj _ => true
  | _ => false
  end.

(** [typeof v === 'string'] *)
Definition typeof_string (v : JValue) : bool :=
  match v with
  | JStr _ => true
  | _ => false
  end.

(** [!o || typeof o !== 'string'] *)
Definition not_a_string (o : option JValue) : bool :=
  negb (truthy_opt o) || negb (from_option typeof_string false o).

(** The name of a node inside a template literal. *)
Definition shown_string (o : option JValue) : string :=
  match o with
  | Some (JStr s) => s
  | _ => EmptyString
  end.

(** The three tests on one element of [data.nodes]; [None] when they pass. *)
Definition validateNode (node : JValue) : outcome (option string) :=
  bind (property node "name") (fun name =>
  if not_a_string name then
    Returns (Some ("Invalid node: missing or invalid " +:+ dq +:+ "name" +:+ dq
                   +:+ " field"))
  else
  bind (property node "type") (fun type =>
  if not_a_string type then
    Returns (Some ("Invalid node " +:+ dq +:+ shown_string name +:+ dq
                   +:+ ": missing or invalid " +:+ dq +:+ "type" +:+ dq
                   +:+ " field"))
  else
  bind (property node "position") (fun position =>
  match position with
  | Some (JArr [_; _]) => Returns None
  | _ =>
    Returns (Some ("Invalid node " +:+ dq +:+ shown_string name +:+ dq
                   +:+ ": missing or invalid " +:+ dq +:+ "position" +:+ dq
                   +:+ " field"))
  end))).

Fixpoint validateNodes (nodes : list JValue) : outcome Verdict :=
  match nodes with
  | [] => Returns {| valid := true; verdict_error := None |}
  | node :: rest =>
      bind (validateNode node) (fun failure =>
      match failure with
      | Some msg => invalid msg
      | None => validateNodes rest
      end)
  end.

Definition validateN8NWorkflow (data : JValue) : outcome Verdict :=
  if negb (truthy data) || negb (typeof_object data) then
    invalid "Invalid workflow data: must be an object"
  else
  bind (property data "nodes") (fun nodes =>
  match nodes with
  | Some (JArr items) =>
      if length items =? 0 then
        invalid "Invalid workflow: must contain at least one node"
      else
      bind (property data "connections") (fun connections =>
      if negb (truthy_opt connections)
         || negb (from_option typeof_object false connections)
      then invalid ("Invalid workflow: missing or invalid " +:+ dq
                    +:+ "connections" +:+ dq +:+ " object")
      else validateNodes items)
  | _ => invalid ("Invalid workflow: missing or invalid " +:+ dq +:+ "nodes"
                  +:+ dq +:+ " array")
  end).

End Converter.

(** ** Notions of the specification

    The wording of the specification where it is compared with the code
    (the definitions named [spec_...]), and the notions in which the
    properties of the conversion are stated. *)

Module Spec.
Import Js JsString Types Mappings Registry Converter.

(** The camel-case conversion as the specification words it: an underscore
    before each uppercase letter that is not the first character of the
    segment, then everything in lower case. *)
Definition spec_snake_case (segment : string) : string :=
  toLowerCase match segment with
              | EmptyString => EmptyString
              | String c r => String c (replace_upper r)
              end.

(** The type resolver with [spec_snake_case] in the place of the code's
    replacement. *)
Definition spec_getSimBlockType (t : string) : string * Z :=
  match find_mapping BLOCK_TYPE_MAPPINGS t with
  | Some mapping => (simType mapping, defaultHeight mapping)
  | None =>
      if contains_char "." t
      then (spec_snake_case (List.last (split_dot t) EmptyString), 230%Z)
      else ("function", 143%Z)
  end.

(** The nodes that step 1 keeps. *)
Definition retained (nodes : list N8NNode) : list N8NNode :=
  List.filter (fun node => negb (is_sticky node)) nodes.

(** One connection entry as step 2 meets it: the key of its group, the
    position of its branch in [main], and the entry itself. *)
Record Link := {
  link_source : string;
  link_output : nat;
  link_connection : N8NConnection;
}.

Definition link_of (sourceName : string) (outputIndex : nat)
    (c : N8NConnection) : Link :=
  {| link_source := sourceName; link_output := outputIndex;
     link_connection := c |}.

Fixpoint branch_links (sourceName : string) (outputIndex : nat)
    (mainConnections : list (list N8NConnection)) : list Link :=
  match mainConnections with
  | [] => []
  | group :: rest =>
      List.map (link_of sourceName outputIndex) group
      ++ branch_links sourceName (S outputIndex) rest
  end.

(** All connection entries of a table, in the order of the three loops. *)
Definition all_links (entries : list (string * N8NConnectionData)) : list Link :=
  List.flat_map (fun entry => branch_links (fst entry) 0
                                (default [] (main (snd entry)))) entries.

(** The name passes the test of step 2. *)
Definition resolves (nodeIdMap : gmap string string) (name : string) : bool :=
  match resolve nodeIdMap name with
  | Some _ => true
  | None => false
  end.

(** The entries whose two names resolve through the name-to-id map. *)
Definition link_resolved (nodeIdMap : gmap string string) (l : Link) : bool :=
  resolves nodeIdMap (link_source l)
  && resolves nodeIdMap (conn_node (link_connection l)).

Definition resolved_links (nodeIdMap : gmap string string)
    (entries : list (string * N8NConnectionData)) : list Link :=
  List.filter (link_resolved nodeIdMap) (all_links entries).

(** The warnings of one entry of one group whose source resolves. *)
Definition target_warnings (nodeIdMap : gmap string string)
    (c : N8NConnection) : list string :=
  match resolve nodeIdMap (conn_node c) with
  | None => [target_warning (conn_node c)]
  | Some _ => []
  end.

(** The warnings of one group: one for an unresolved source and nothing
    else, or one per unresolved target. *)
Definition entry_warnings (nodeIdMap : gmap string string)
    (entry : string * N8NConnectionData) : list string :=
  match resolve nodeIdMap (fst entry) with
  | None => [source_warning (fst entry)]
  | Some _ =>
      List.flat_map (List.flat_map (target_warnings nodeIdMap))
                    (default [] (main (snd entry)))
  end.

(** The warnings of step 2, group after group. *)
Definition connection_warnings (nodeIdMap : gmap string string)
    (entries : list (string * N8NConnectionData)) : list string :=
  List.flat_map (entry_warnings nodeIdMap) entries.

(** The branch-handle rule in the specification's words: a conditional
    block gives the "true" handle to branch 0 and the "else" handle to every
    other branch; any other block gives the one generic handle. *)
Inductive handle_rule (sourceBlock : SimBlock) (outputIndex : nat) : string -> Prop :=
| handle_true :
    block_type sourceBlock = "condition" -> outputIndex = 0 ->
    handle_rule sourceBlock outputIndex "condition-cond-true"
| handle_else :
    block_type sourceBlock = "condition" -> outputIndex <> 0 ->
    handle_rule sourceBlock outputIndex "condition-cond-else"
| handle_generic :
    block_type sourceBlock <> "condition" ->
    handle_rule sourceBlock outputIndex "source".

(** The edge [e] is the one of the connection entry [l]: its ends are what
    the two names resolve to, both are keys of the block map, and its
    handles follow the rule for the block at its source. *)
Definition edge_for (nodeIdMap : gmap string string)
    (blocks : gmap string SimBlock) (e : SimEdge) (l : Link) : Prop :=
  exists sourceBlock,
    resolve nodeIdMap (link_source l) = Some (edge_source e)
    /\ resolve nodeIdMap (conn_node (link_connection l)) = Some (edge_target e)
    /\ blocks !! edge_source e = Some sourceBlock
    /\ is_Some (blocks !! edge_target e)
    /\ handle_rule sourceBlock (link_output l) (edge_sourceHandle e)
    /\ edge_targetHandle e = "target".

(** What step 2 may change between two states: nothing in the two maps, and
    the given warnings and edges at the end of the two lists. *)
Definition step2_post (st st' : ConvState) (links : list Link)
    (pushed : list string) : Prop :=
  st_blocks st' = st_blocks st
  /\ st_nodeIdMap st' = st_nodeIdMap st
  /\ st_warnings st' = st_warnings st ++ pushed
  /\ exists new, st_edges st' = st_edges st ++ new
                 /\ Forall2 (edge_for (st_nodeIdMap st) (st_blocks st)) new links.

(** The shape that the structural check accepts, in the specification's
    words: an object whose [nodes] is a non-empty array, whose [connections]
    is an object, and whose nodes each have a non-empty string [name], a
    non-empty string [type] and a two-element array [position]. *)
Definition field (fields : list (string * JValue)) (key : string)
  : option JValue :=
  snd <$> List.find (fun kv => String.eqb (fst kv) key) fields.

Definition nonempty_string (o : option JValue) : Prop :=
  exists s, o = Some (JStr s) /\ s <> EmptyString.

Definition node_shape (node : JValue) : Prop :=
  exists fields a b,
    node = JObj fields
    /\ nonempty_string (field fields "name")
    /\ nonempty_string (field fields "type")
    /\ field fields "position" = Some (JArr [a; b]).

(** A value whose [typeof] is [object] and that is not [null]. *)
Definition object_like (v : JValue) : Prop :=
  (exists items, v = JArr items) \/ (exists fields, v = JObj fields).

Definition workflow_shape (data : JValue) : Prop :=
  exists fields items connections,
    data = JObj fields
    /\ field fields "nodes" = Some (JArr items)
    /\ items <> []
    /\ field fields "connections" = Some connections
    /\ object_like connections
    /\ Forall node_shape items.

Section WithPlatform.
Context `{Platform}.

(** The warnings of step 1: nothing for a sticky note, and for any other
    node what the existence check pushes. *)
Definition node_warnings (nodes : list N8NNode) : list string :=
  List.flat_map (fun node => if is_sticky node then []
                             else (resolveBlockType node).2) nodes.

(** The value of the first of [keys] that [parameters] has at all. *)
Definition first_defined (parameters : gmap string JValue) (keys : list string)
  : option JValue :=
  List.fold_right (fun key rest => match parameters !! key with
                                   | Some v => Some v
                                   | None => rest
                                   end) None keys.

(** The value of the first of [keys] whose value is truthy. *)
Definition first_truthy (parameters : gmap string JValue) (keys : list string)
  : option JValue :=
  List.fold_right (fun key rest => js_or (parameters !! key) rest) None keys.

(** The result of the first strategy of a list that yields a value. *)
Fixpoint first_yield (strategies : list (option JValue)) : option JValue :=
  match strategies with
  | [] => None
  | Some v :: _ => Some v
  | None :: rest => first_yield rest
  end.

Definition declared_default (def : SubBlockConfig) : option JValue :=
  match def_value def with
  | Some (ComputedValue f) => Some (f tt)
  | Some (FixedValue v) => Some v
  | None => None
  end.

(** The eight strategies as the specification lists them; each yields a
    value or passes, and an alternate key yields when the node has it. *)
Definition spec_strategies (node : N8NNode) (simType : string)
    (def : SubBlockConfig) : list (option JValue) :=
  let id := def_id def in
  let parameters := node_parameters node in
  [ parameters !! id;
    if String.eqb id "code"
    then first_defined parameters ["jsCode"; "functionCode"; "code"; "script"]
    else None;
    if String.eqb id "message"
    then first_defined parameters ["text"; "body"] else None;
    if String.eqb id "to" then first_defined parameters ["sendTo"] else None;
    if String.eqb id "language" && String.eqb simType "function"
    then Some (JStr "javascript") else None;
    if String.eqb id "condition"
    then JStr ∘ JSON_stringify <$> first_defined parameters ["conditions"]
    else None;
    declared_default def;
    Some JNull ].

Definition spec_slot_value (node : N8NNode) (simType : string)
    (def : SubBlockConfig) : option JValue :=
  first_yield (spec_strategies node simType def).

(** The strategies as the code runs them: an alternate key counts when its
    value is truthy, and for the slot [code] the second strategy always
    yields, [null] when no alternate key counts. *)
Definition code_strategies (node : N8NNode) (simType : string)
    (def : SubBlockConfig) : list (option JValue) :=
  let id := def_id def in
  let parameters := node_parameters node in
  [ parameters !! id;
    if String.eqb id "code"
    then Some (default JNull
                 (first_truthy parameters
                               ["jsCode"; "functionCode"; "code"; "script"]))
    else None;
    if String.eqb id "message"
    then first_truthy parameters ["text"; "body"] else None;
    if String.eqb id "to" then first_truthy parameters ["sendTo"] else None;
    if String.eqb id "language" && String.eqb simType "function"
    then Some (JStr "javascript") else None;
    if String.eqb id "condition"
    then JStr ∘ JSON_stringify <$> first_truthy parameters ["conditions"]
    else None;
    declared_default def;
    Some JNull ].

(** The name-to-id map when step 1 is over. *)
Definition nodeIdMapOf (n8nWorkflow : N8NWorkflow) : gmap string string :=
  st_nodeIdMap (convertNodes initial (wf_nodes n8nWorkflow) 0).

(** Every identifier in the block map was drawn before. *)
Definition blocks_bounded (st : ConvState) : Prop :=
  forall id, is_Some (st_blocks st !! id) ->
             exists k, k < st_uuids st /\ id = uuidv4 k.

(** Every identifier that a name is bound to has a block. *)
Definition ids_have_blocks (st : ConvState) : Prop :=
  forall name id, st_nodeIdMap st !! name = Some id ->
                  is_Some (st_blocks st !! id).

End WithPlatform.

End Spec.

(** ** A small platform and small workflows to run the code on *)

Module Examples.
Import Js JsString Types Mappings Registry Converter.

(** The [n]-th identifier: [n] strokes and a closing mark. *)
Fixpoint tally (n : nat) : string :=
  match n with
  | 0 => "#"
  | S k => String "i" (tally k)
  end.

Definition function_block : BlockConfig :=
  {| cfg_subBlocks :=
       Some [ {| def_id := "code"; def_type := "code"; def_value := None |};
              {| def_id := "language"; def_type := "dropdown";
                 def_value := Some (FixedValue (JStr "python")) |} ];
     cfg_outputs := None |}.

Definition condition_block : BlockConfig :=
  {| cfg_subBlocks :=
       Some [ {| def_id := "condition"; def_type := "condition-input";
                 def_value := None |} ];
     cfg_outputs := None |}.

(** A catalogue with a [function] and a [condition] block, and a [webhook]
    type that exists without a definition. *)
Definition demo : Platform :=
  {| uuidv4 := tally;
     isValidBlockType :=
       fun t => includes ["function"; "condition"; "webhook"] t;
     getBlock := fun t => if String.eqb t "function" then Some function_block
                          else if String.eqb t "condition" then Some condition_block
                          else None;
     JSON_stringify := fun _ => "{}";
     Date_toISOString := fun _ => "2025-01-01T00:00:00.000Z" |}.

Definition node (name type : string) (parameters : list (string * JValue))
  : N8NNode :=
  {| node_name := name; node_type := type; node_position := (0, 0)%Z;
     node_parameters := list_to_map parameters; node_credentials := None;
     node_typeVersion := 1 |}.

Definition to (target : string) : N8NConnection :=
  {| conn_node := target; conn_type := "main"; conn_index := 0 |}.

(** A webhook, a note, a conditional with two branches, a node of a type
    that the platform does not have, and two nodes of one name. *)
Definition demo_workflow : N8NWorkflow :=
  {| wf_name := Some "demo";
     wf_nodes :=
       [ node "Hook" "n8n-nodes-base.webhook" [("path", JStr "in")];
         node "Note" "n8n-nodes-base.stickyNote" [];
         node "If" "n8n-nodes-base.if" [("conditions", JObj [])];
         node "Mail" "n8n-nodes-base.sendGrid" [];
         node "Twin" "n8n-nodes-base.code" [("jsCode", JStr "return 1")];
         node "Twin" "n8n-nodes-base.code" [("jsCode", JStr "return 2")] ];
     wf_connections :=
       [ ("Hook", {| main := Some [[to "If"]] |});
         ("If", {| main := Some [[to "Mail"; to "Gone"]; [to "Twin"]; [to "Note"]] |});
         ("Note", {| main := Some [[to "Hook"]] |}) ] |}.

(** The same without the second twin: every name is used once. *)
Definition plain_workflow : N8NWorkflow :=
  {| wf_name := None;
     wf_nodes :=
       [ node "Hook" "n8n-nodes-base.webhook" [("path", JStr "in")];
         node "Note" "n8n-nodes-base.stickyNote" [];
         node "If" "n8n-nodes-base.if" [("conditions", JObj [])];
         node "Mail" "n8n-nodes-base.sendGrid" [] ];
     wf_connections :=
       [ ("Hook", {| main := Some [[to "If"]] |});
         ("If", {| main := Some [[to "Mail"]; [to "Note"]] |}) ] |}.

(** A catalogue whose one block declares the slot [code] twice, the first
    time with a default. *)
Definition twice_declared : list SubBlockConfig :=
  [ {| def_id := "code"; def_type := "code";
       def_value := Some (FixedValue (JStr "return 0")) |};
    {| def_id := "code"; def_type := "long-input"; def_value := None |} ].

Definition twice : Platform :=
  {| uuidv4 := tally;
     isValidBlockType := fun _ => true;
     getBlock := fun _ => Some {| cfg_subBlocks := Some twice_declared;
                                  cfg_outputs := None |};
     JSON_stringify := fun _ => "{}";
     Date_toISOString := fun _ => "2025-01-01T00:00:00.000Z" |}.

(** A catalogue whose one block declares the slot [code] once, with a
    default. *)
Definition code_with_default : SubBlockConfig :=
  {| def_id := "code"; def_type := "code";
     def_value := Some (FixedValue (JStr "return 0")) |}.

Definition defaulted : Platform :=
  {| uuidv4 := tally;
     isValidBlockType := fun _ => true;
     getBlock := fun _ => Some {| cfg_subBlocks := Some [code_with_default];
                                  cfg_outputs := None |};
     JSON_stringify := fun _ => "{}";
     Date_toISOString := fun _ => "2025-01-01T00:00:00.000Z" |}.

(** A declaration of the slot [message], and a messaging node whose [text]
    is the empty string. *)
Definition message_slot : SubBlockConfig :=
  {| def_id := "message"; def_type := "long-input"; def_value := None |}.

Definition empty_text_node : N8NNode :=
  node "Say" "n8n-nodes-base.slack"
       [("text", JStr EmptyString); ("body", JStr "hi")].

(** A code node without parameters. *)
Definition bare_code_node : N8NNode := node "Run" "n8n-nodes-base.code" [].

(** A webhook node whose parameters, as parsed from
    [{"__proto__": "x", "path": "in"}], have the key [__proto__], and the
    workflow of that node alone. *)
Definition proto_node : N8NNode :=
  node "Hook" "n8n-nodes-base.webhook"
       [("__proto__", JStr "x"); ("path", JStr "in")].

Definition proto_workflow : N8NWorkflow :=
  {| wf_name := None; wf_nodes := [proto_node]; wf_connections := [] |}.

(** A workflow whose only node is [null]. *)
Definition null_node_workflow : JValue :=
  JObj [("nodes", JArr [JNull]); ("connections", JObj [])].

(** The three end-to-end examples of the specification. *)
Definition only_webhook : N8NWorkflow :=
  {| wf_name := None;
     wf_nodes := [ node "Hook" "n8n-nodes-base.webhook" [] ];
     wf_connections := [] |}.

Definition two_branches : N8NWorkflow :=
  {| wf_name := None;
     wf_nodes := [ node "If" "n8n-nodes-base.if" [];
                   node "Yes" "n8n-nodes-base.code" [];
                   node "No" "n8n-nodes-base.code" [] ];
     wf_connections := [ ("If", {| main := Some [[to "Yes"]; [to "No"]] |}) ] |}.

Definition only_bare : N8NWorkflow :=
  {| wf_name := None;
     wf_nodes := [ node "Odd" "mystery" [] ];
     wf_connections := [] |}.

(** A platform without the [function] block type. *)
Definition without_function : Platform :=
  {| uuidv4 := tally;
     isValidBlockType := fun t => includes ["condition"; "webhook"] t;
     getBlock := fun _ => None;
     JSON_stringify := fun _ => "{}";
     Date_toISOString := fun _ => "2025-01-01T00:00:00.000Z" |}.

End Examples.

(** ** Further notions: identifiers, letters, and more small workflows *)

Module Further.
Import Js JsString Types Mappings Registry Converter Spec.

(** The uppercase letters by their code units: the capitals [A] to [Z], and
    the accented capitals of Latin-1, 192 to 222 without the multiplication
    sign. The lowercase partner of either is 32 code units up. *)
Definition capital (c : ascii) : Prop := 65 <= nat_of_ascii c <= 90.

Definition accented_capital (c : ascii) : Prop :=
  192 <= nat_of_ascii c <= 222 /\ nat_of_ascii c <> 215.

Definition partner (c : ascii) : ascii := ascii_of_nat (nat_of_ascii c + 32).

(** The string has no uppercase letter. *)
Definition no_uppercase (s : string) : Prop :=
  forall c, In c (list_ascii_of_string s) -> ~ capital c /\ ~ accented_capital c.

(** The snake case of a segment, character by character: a capital becomes
    an underscore and its partner, also at the start of the segment; an
    accented capital becomes its partner, without an underscore; any other
    character stays. *)
Inductive snake_rule : string -> string -> Prop :=
| snake_end : snake_rule EmptyString EmptyString
| snake_capital c r r' :
    capital c -> snake_rule r r' ->
    snake_rule (String c r) (String "_" (String (partner c) r'))
| snake_accented c r r' :
    accented_capital c -> snake_rule r r' ->
    snake_rule (String c r) (String (partner c) r')
| snake_other c r r' :
    ~ capital c -> ~ accented_capital c -> snake_rule r r' ->
    snake_rule (String c r) (String c r').

(** The type that an output declaration names. *)
Definition declared_type (outputDef : OutputDef) : string :=
  match outputDef with
  | OutputTypeName t => t
  | OutputObject t _ => t
  end.

(** The port that [generateOutputsForBlockType] falls back to. *)
Definition result_port : OutputPort :=
  {| port_type := "any"; port_description := "Output from block execution" |}.

(** The same collaborators with another identifier generator. *)
Definition with_uuid (P : Platform) (generator : nat -> string) : Platform :=
  {| uuidv4 := generator;
     isValidBlockType := @isValidBlockType P;
     getBlock := @getBlock P;
     JSON_stringify := @JSON_stringify P;
     Date_toISOString := @Date_toISOString P |}.

(** A block without its identifier. *)
Definition anonymous (b : SimBlock) : SimBlock :=
  {| block_id := EmptyString;
     block_type := block_type b;
     block_name := block_name b;
     block_position := block_position b;
     block_enabled := block_enabled b;
     block_horizontalHandles := block_horizontalHandles b;
     block_advancedMode := block_advancedMode b;
     block_triggerMode := block_triggerMode b;
     block_height := block_height b;
     block_subBlocks := block_subBlocks b;
     block_outputs := block_outputs b;
     block_data := block_data b;
     block_layout := block_layout b |}.

Section WithPlatform.
Context `{Platform}.

(** What step 2 does to the identifiers: the new edges carry, in order, the
    identifiers drawn from the counter of [st] on, and the counter of [st']
    has moved past them. *)
Definition step2_ids (st st' : ConvState) : Prop :=
  exists new,
    st_edges st' = st_edges st ++ new
    /\ edge_id <$> new = uuidv4 <$> seq (st_uuids st) (length new)
    /\ st_uuids st' = st_uuids st + length new.

End WithPlatform.

(** A workflow that starts with a note. *)
Definition note_first : N8NWorkflow :=
  {| wf_name := Some EmptyString;
     wf_nodes :=
       [ Examples.node "Note" "n8n-nodes-base.stickyNote" [];
         Examples.node "Run" "n8n-nodes-base.code" [];
         Examples.node "Poll" "n8n-nodes-base.githubTrigger" [] ];
     wf_connections :=
       [ ("Poll", {| main := Some [[Examples.to "Run"; Examples.to "Lost"]] |}) ] |}.

(** A workflow of notes only, with connections among them. *)
Definition notes_only : N8NWorkflow :=
  {| wf_name := None;
     wf_nodes :=
       [ Examples.node "A" "n8n-nodes-base.stickyNote" [];
         Examples.node "B" "n8n-nodes-base.stickyNote" [] ];
     wf_connections :=
       [ ("A", {| main := Some [[Examples.to "B"]] |});
         ("B", {| main := None |}) ] |}.

(** Input of the structural check: a well-formed node, a node whose type is
    a number, and two workflows made of them. *)
Definition sound_node : JValue :=
  JObj [("name", JStr "Start"); ("type", JStr "n8n-nodes-base.webhook");
        ("position", JArr [JNum 0; JNum 0])].

Definition broken_node_fields : list (string * JValue) :=
  [("name", JStr "Broken"); ("type", JNum 3)].

Definition sound_workflow_fields : list (string * JValue) :=
  [("nodes", JArr [sound_node]); ("connections", JObj [])].

Definition broken_workflow_fields : list (string * JValue) :=
  [("nodes", JArr [sound_node; JObj broken_node_fields; JNull]);
   ("connections", JObj [])].

(** A catalogue whose one block declares a slot named after a member of
    [Object.prototype], with a default, and a slot named [__proto__]. *)
Definition inheriting_slots : list SubBlockConfig :=
  [ {| def_id := "constructor"; def_type := "short-input";
       def_value := Some (FixedValue (JStr "x")) |};
    {| def_id := "__proto__"; def_type := "short-input"; def_value := None |} ].

Definition inheriting : Platform :=
  {| uuidv4 := Examples.tally;
     isValidBlockType := fun _ => true;
     getBlock := fun _ => Some {| cfg_subBlocks := Some inheriting_slots;
                                  cfg_outputs := None |};
     JSON_stringify := fun _ => "{}";
     Date_toISOString := fun _ => "2025-01-01T00:00:00.000Z" |}.

(** Another generator: [n] strokes after a mark. *)
Fixpoint marks (n : nat) : string :=
  match n with
  | 0 => "@"
  | S k => String "@" (marks k)
  end.

End Further.

(** * Properties *)

Import Js JsString Types Mappings Registry Converter Spec Further.

(** ** Strings *)

#[local] Arguments String.append !s1 s2 : simpl nomatch.

Lemma append_assoc (a b c : string) : (a +:+ b) +:+ c = a +:+ b +:+ c.
Proof. induction a as [|x a IH]; simpl; [reflexivity | now rewrite IH]. Qed.

Lemma length_append (a b : string) :
  String.length (a +:+ b) = String.length a + String.length b.
Proof. induction a as [|x a IH]; simpl; [reflexivity | now rewrite IH]. Qed.

Lemma substring_all (s : string) : substring 0 (String.length s) s = s.
Proof. induction s as [|x s IH]; simpl; [reflexivity | now rewrite IH]. Qed.

Lemma substring_after (p s : string) (m : nat) :
  substring (String.length p) m (p +:+ s) = substring 0 m s.
Proof. induction p as [|x p IH]; simpl; [reflexivity | exact IH]. Qed.

Lemma substring_split (s : string) (k : nat) :
  k <= String.length s ->
  s = substring 0 k s +:+ substring k (String.length s - k) s.
Proof.
  revert k. induction s as [|x s IH]; intros k Hk; simpl in *.
  - destruct k; reflexivity.
  - destruct k as [|k]; simpl.
    + now rewrite substring_all.
    + f_equal. apply IH. lia.
Qed.

Lemma endsWith_spec (s suffix : string) :
  endsWith s suffix = true <-> exists p, s = p +:+ suffix.
Proof.
  unfold endsWith. rewrite andb_true_iff, Nat.leb_le, String.eqb_eq. split.
  - intros [Hle Hsub]. exists (substring 0 (String.length s - String.length suffix) s).
    pose proof (substring_split s (String.length s - String.length suffix)) as Hsp.
    replace (String.length s - (String.length s - String.length suffix))
      with (String.length suffix) in Hsp by lia.
    rewrite Hsub in Hsp. apply Hsp. lia.
  - intros [p ->]. rewrite length_append. split; [lia |].
    replace (String.length p + String.length suffix - String.length suffix)
      with (String.length p) by lia.
    rewrite substring_after. apply substring_all.
Qed.

Lemma mentions_prefix (sub post : string) : mentions (sub +:+ post) sub.
Proof. now exists EmptyString, post. Qed.

Lemma mentions_append_l (a s sub : string) : mentions s sub -> mentions (a +:+ s) sub.
Proof.
  intros (pre & post & ->). exists (a +:+ pre), post. now rewrite append_assoc.
Qed.

Lemma split_dot_nonempty (s : string) : split_dot s <> [].
Proof.
  induction s as [|c s IH]; simpl; [discriminate |].
  destruct (Ascii.eqb c "."); [discriminate |].
  destruct (split_dot s); [contradiction | discriminate].
Qed.

Lemma split_dot_length (s : string) :
  (1 <? length (split_dot s)) = contains_char "." s.
Proof.
  induction s as [|c s IH]; simpl; [reflexivity |].
  pose proof (split_dot_nonempty s) as Hne.
  destruct (Ascii.eqb c ".") eqn:Hc; simpl.
  - destruct (split_dot s); [contradiction | reflexivity].
  - destruct (split_dot s) as [|p ps]; [contradiction |]. exact IH.
Qed.

Lemma split_dot_single (s q : string) :
  split_dot s = [q] -> q = s /\ contains_char "." s = false.
Proof.
  revert q. induction s as [|d s IHs]; simpl.
  - intros q Hq. now inversion Hq.
  - pose proof (split_dot_nonempty s) as Hne.
    destruct (Ascii.eqb d ".") eqn:Hd; intros q Hq.
    + inversion Hq. contradiction.
    + destruct (split_dot s) as [|r [|r' rs]]; [contradiction | | discriminate].
      inversion Hq; subst. destruct (IHs r eq_refl) as [-> Hr].
      now split.
Qed.

(** The last part of a string with a dot is what follows its last dot. *)
Lemma split_dot_last (s : string) :
  contains_char "." s = true ->
  exists p, s = p +:+ "." +:+ List.last (split_dot s) EmptyString
            /\ contains_char "." (List.last (split_dot s) EmptyString) = false.
Proof.
  induction s as [|c s IH]; simpl; [discriminate |].
  pose proof (split_dot_nonempty s) as Hne.
  destruct (Ascii.eqb c ".") eqn:Hc; simpl.
  - apply Ascii.eqb_eq in Hc. subst c. intros _.
    destruct (contains_char "." s) eqn:Hs.
    + destruct (IH eq_refl) as (p & Hp & Hlast).
      destruct (split_dot s) as [|q qs]; [contradiction |].
      exists (String "." p). split; [simpl; f_equal; exact Hp | exact Hlast].
    + rewrite <- split_dot_length in Hs.
      destruct (split_dot s) as [|q [|q' qs]] eqn:Hsplit; [contradiction | | discriminate].
      exists EmptyString. simpl.
      destruct (split_dot_single s q Hsplit) as [-> Hq]. now split.
  - intros Hs. destruct (IH Hs) as (p & Hp & Hlast).
    destruct (split_dot s) as [|q [|q' qs]] eqn:Hsplit; [contradiction | |].
    + rewrite <- split_dot_length, Hsplit in Hs. discriminate.
    + exists (String c p). split; [simpl; f_equal; exact Hp | exact Hlast].
Qed.

(** ** The type resolver *)

Lemma find_mapping_Some (table : list BlockTypeMapping) (t : string) (m : BlockTypeMapping) :
  find_mapping table t = Some m <->
  exists before after,
    table = before ++ m :: after /\ n8nType m = t
    /\ Forall (fun m' => n8nType m' <> t) before.
Proof.
  unfold find_mapping. split.
  - induction table as [|x table IH]; simpl; [discriminate |].
    destruct (String.eqb (n8nType x) t) eqn:Hx.
    + intros [= ->]. exists [], table. apply String.eqb_eq in Hx. auto.
    + intros Hm. destruct (IH Hm) as (before & after & -> & Ht & Hbefore).
      exists (x :: before), after. apply String.eqb_neq in Hx. auto.
  - intros (before & after & -> & Ht & Hbefore).
    induction Hbefore as [|x before Hx _ IH]; simpl.
    + apply String.eqb_eq in Ht. now rewrite Ht.
    + apply String.eqb_neq in Hx. now rewrite Hx.
Qed.

Lemma find_mapping_None (table : list BlockTypeMapping) (t : string) :
  find_mapping table t = None <-> Forall (fun m => n8nType m <> t) table.
Proof.
  unfold find_mapping. induction table as [|x table IH]; simpl.
  - split; auto.
  - destruct (String.eqb (n8nType x) t) eqn:Hx.
    + apply String.eqb_eq in Hx. split; [discriminate |].
      intros Hall. inversion Hall; contradiction.
    + apply String.eqb_neq in Hx. rewrite IH. split.
      * now constructor.
      * intros Hall. now inversion Hall.
Qed.

(** An exact match in the table decides the result, and it is the first one. *)
Lemma getSimBlockType_listed (t : string) (m : BlockTypeMapping) :
  find_mapping BLOCK_TYPE_MAPPINGS t = Some m ->
  getSimBlockType t = (simType m, defaultHeight m).
Proof. unfold getSimBlockType. now intros ->. Qed.

(** Without a match, a type with a dot resolves to what the replacement and
    the lowering make of its last segment, with height 230. *)
Lemma getSimBlockType_namespaced (t : string) :
  find_mapping BLOCK_TYPE_MAPPINGS t = None ->
  contains_char "." t = true ->
  exists prefix segment,
    t = prefix +:+ "." +:+ segment /\ contains_char "." segment = false
    /\ getSimBlockType t = (toLowerCase (replace_upper segment), 230%Z).
Proof.
  intros Hnone Hdot. destruct (split_dot_last t Hdot) as (p & Hp & Hlast).
  exists p, (List.last (split_dot t) EmptyString). repeat split; trivial.
  unfold getSimBlockType. now rewrite Hnone, split_dot_length, Hdot.
Qed.

(** Without a match and without a dot, the generic fallback. *)
Lemma getSimBlockType_bare (t : string) :
  find_mapping BLOCK_TYPE_MAPPINGS t = None ->
  contains_char "." t = false ->
  getSimBlockType t = ("function", 143%Z).
Proof.
  intros Hnone Hdot. unfold getSimBlockType.
  now rewrite Hnone, split_dot_length, Hdot.
Qed.

(** The code's replacement and the specification's wording agree on every
    segment that does not start with an uppercase letter. *)
Lemma snake_case_agree (segment : string) :
  match segment with
  | EmptyString => True
  | String c _ => is_upper c = false
  end ->
  toLowerCase (replace_upper segment) = spec_snake_case segment.
Proof.
  destruct segment as [|c r]; simpl; [reflexivity |].
  intros ->. reflexivity.
Qed.

(** They differ on every segment that does: the code puts an underscore in
    front. *)
Lemma snake_case_leading_upper (c : ascii) (r : string) :
  is_upper c = true ->
  toLowerCase (replace_upper (String c r))
  = String "_" (spec_snake_case (String c r)).
Proof.
  intros Hc. simpl. rewrite Hc. reflexivity.
Qed.

(** The resolver does what the claim says on every type whose last segment
    does not start with an uppercase letter. *)
Lemma getSimBlockType_agrees (t : string) :
  match List.last (split_dot t) EmptyString with
  | EmptyString => True
  | String c _ => is_upper c = false
  end ->
  getSimBlockType t = spec_getSimBlockType t.
Proof.
  intros Hfirst. unfold getSimBlockType, spec_getSimBlockType.
  destruct (find_mapping BLOCK_TYPE_MAPPINGS t); [reflexivity |].
  rewrite split_dot_length.
  destruct (contains_char "." t); [| reflexivity].
  now rewrite snake_case_agree.
Qed.

(** C1 (the code departs from the claim). The type [n8n-nodes-base.Slack] is
    not in the table and has a namespace separator; its last segment is
    [Slack], whose only uppercase letter is its first character. The claim
    asks for the segment lowered with an underscore before internal uppercase
    letters only, that is [slack]; [getSimBlockType] returns [_slack]. *)
Theorem C1_leading_uppercase_gets_underscore :
  getSimBlockType "n8n-nodes-base.Slack" = ("_slack", 230%Z)
  /\ spec_getSimBlockType "n8n-nodes-base.Slack" = ("slack", 230%Z)
  /\ find_mapping BLOCK_TYPE_MAPPINGS "n8n-nodes-base.Slack" = None.
Proof. repeat split; vm_compute; reflexivity. Qed.

(** ** Trigger classification *)

Lemma includes_In (l : list string) (x : string) :
  includes l x = true <-> In x l.
Proof.
  unfold includes. rewrite existsb_exists. split.
  - intros (y & Hy & Hxy). apply String.eqb_eq in Hxy. now subst.
  - intros Hx. exists x. split; [exact Hx | apply String.eqb_refl].
Qed.

Lemma isTriggerNode_spec (node : N8NNode) (isFirstNode : bool) :
  isTriggerNode node isFirstNode = true <->
  In (node_type node) triggerTypes
  \/ (exists p, node_type node = p +:+ "Trigger")
  \/ isFirstNode = true.
Proof.
  unfold isTriggerNode. rewrite <- includes_In, <- endsWith_spec.
  destruct (includes triggerTypes (node_type node)); [tauto |].
  destruct (endsWith (node_type node) "Trigger"); [tauto |].
  split; [tauto |]. intros [H | [H | H]]; congruence.
Qed.

(** ** Step 1: nodes to blocks *)

Section NodeTranslation.
Context `{Platform}.

Hypothesis uuidv4_inj : forall i j, uuidv4 i = uuidv4 j -> i = j.

Lemma convertNode_sticky (st : ConvState) (node : N8NNode) (index : nat) :
  is_sticky node = true -> convertNode st node index = st.
Proof. unfold convertNode. now intros ->. Qed.

Lemma convertNode_retained (st : ConvState) (node : N8NNode) (index : nat) :
  is_sticky node = false ->
  convertNode st node index =
  {| st_warnings := st_warnings st ++ (resolveBlockType node).2;
     st_blocks := <[uuidv4 (st_uuids st) :=
                      simBlockOf (uuidv4 (st_uuids st)) node index]> (st_blocks st);
     st_edges := st_edges st;
     st_nodeIdMap := <[node_name node := uuidv4 (st_uuids st)]> (st_nodeIdMap st);
     st_uuids := S (st_uuids st) |}.
Proof. unfold convertNode. now intros ->. Qed.

Lemma convertNodes_app (st : ConvState) (l1 l2 : list N8NNode) (index : nat) :
  convertNodes st (l1 ++ l2) index
  = convertNodes (convertNodes st l1 index) l2 (index + length l1).
Proof.
  revert st index. induction l1 as [|x l1 IH]; intros st index; simpl.
  - now rewrite Nat.add_0_r.
  - rewrite IH. f_equal. lia.
Qed.

Lemma convertNodes_uuids (st : ConvState) (nodes : list N8NNode) (index : nat) :
  st_uuids (convertNodes st nodes index) = st_uuids st + length (retained nodes).
Proof.
  revert st index. induction nodes as [|x l IH]; intros st index; simpl; [lia |].
  rewrite IH. unfold convertNode.
  destruct (is_sticky x); simpl; lia.
Qed.

Lemma convertNodes_edges (st : ConvState) (nodes : list N8NNode) (index : nat) :
  st_edges (convertNodes st nodes index) = st_edges st.
Proof.
  revert st index. induction nodes as [|x l IH]; intros st index; simpl; [reflexivity |].
  rewrite IH. unfold convertNode. now destruct (is_sticky x).
Qed.

Lemma convertNodes_warnings (st : ConvState) (nodes : list N8NNode) (index : nat) :
  st_warnings (convertNodes st nodes index) = st_warnings st ++ node_warnings nodes.
Proof.
  revert st index. induction nodes as [|x l IH]; intros st index; simpl.
  - now rewrite app_nil_r.
  - rewrite IH. unfold convertNode, node_warnings. simpl.
    destruct (is_sticky x); simpl; [reflexivity | now rewrite <- app_assoc].
Qed.

(** A block keyed by an identifier drawn earlier is never touched again. *)
Lemma convertNodes_blocks_old (st : ConvState) (nodes : list N8NNode) (index k : nat) :
  k < st_uuids st ->
  st_blocks (convertNodes st nodes index) !! uuidv4 k = st_blocks st !! uuidv4 k.
Proof.
  revert st index. induction nodes as [|x l IH]; intros st index Hk; simpl; [reflexivity |].
  destruct (is_sticky x) eqn:Hx.
  - rewrite convertNode_sticky by exact Hx. now apply IH.
  - rewrite IH by (rewrite convertNode_retained by exact Hx; simpl; lia).
    rewrite convertNode_retained by exact Hx. simpl.
    apply lookup_insert_ne. intros Heq. apply uuidv4_inj in Heq. lia.
Qed.

(** A name that no later retained node carries keeps its binding. *)
Lemma convertNodes_idmap_other (st : ConvState) (nodes : list N8NNode)
    (index : nat) (name : string) :
  Forall (fun node => is_sticky node = false -> node_name node <> name) nodes ->
  st_nodeIdMap (convertNodes st nodes index) !! name = st_nodeIdMap st !! name.
Proof.
  intros Hall. revert st index.
  induction Hall as [|x l Hx _ IH]; intros st index; simpl; [reflexivity |].
  rewrite IH. unfold convertNode.
  destruct (is_sticky x); simpl; [reflexivity |].
  apply lookup_insert_ne. now apply Hx.
Qed.

Lemma convertNodes_idmap_mono (st : ConvState) (nodes : list N8NNode)
    (index : nat) (name : string) :
  is_Some (st_nodeIdMap st !! name) ->
  is_Some (st_nodeIdMap (convertNodes st nodes index) !! name).
Proof.
  revert st index. induction nodes as [|x l IH]; intros st index Hsome; simpl; [exact Hsome |].
  apply IH. unfold convertNode.
  destruct (is_sticky x); simpl; [exact Hsome |].
  destruct (decide (node_name x = name)) as [-> | Hne].
  - rewrite lookup_insert_eq. eauto.
  - now rewrite lookup_insert_ne.
Qed.

(** A name is bound exactly when a retained node carries it. *)
Lemma convertNodes_idmap_None (nodes : list N8NNode) (name : string) :
  st_nodeIdMap (convertNodes initial nodes 0) !! name = None <->
  Forall (fun node => is_sticky node = false -> node_name node <> name) nodes.
Proof.
  split.
  - intros Hnone. apply Forall_forall. intros node Hin Hkeep Hname.
    apply list_elem_of_split in Hin as (l1 & l2 & ->).
    rewrite convertNodes_app in Hnone. simpl in Hnone.
    apply eq_None_not_Some in Hnone. apply Hnone.
    apply convertNodes_idmap_mono.
    rewrite convertNode_retained by exact Hkeep. simpl.
    rewrite Hname, lookup_insert_eq. eauto.
  - intros Hall. now rewrite convertNodes_idmap_other.
Qed.

Lemma blocks_bounded_initial : blocks_bounded initial.
Proof. intros id [b Hb]. simpl in Hb. now rewrite lookup_empty in Hb. Qed.

Lemma convertNode_blocks_bounded (st : ConvState) (node : N8NNode) (index : nat) :
  blocks_bounded st -> blocks_bounded (convertNode st node index).
Proof.
  intros Hb. unfold convertNode. destruct (is_sticky node); [exact Hb |].
  intros id. simpl.
  destruct (decide (uuidv4 (st_uuids st) = id)) as [<- | Hne].
  - intros _. exists (st_uuids st). split; [lia | reflexivity].
  - rewrite lookup_insert_ne by exact Hne. intros Hsome.
    destruct (Hb id Hsome) as (k & Hk & ->). exists k. split; [lia | reflexivity].
Qed.

(** Every retained node adds one block, under a key of its own. *)
Lemma convertNodes_size (st : ConvState) (nodes : list N8NNode) (index : nat) :
  blocks_bounded st ->
  size (st_blocks (convertNodes st nodes index))
  = size (st_blocks st) + length (retained nodes).
Proof.
  revert st index. induction nodes as [|x l IH]; intros st index Hb; simpl; [lia |].
  rewrite IH by now apply convertNode_blocks_bounded.
  destruct (is_sticky x) eqn:Hx; simpl.
  - now rewrite convertNode_sticky.
  - rewrite convertNode_retained by exact Hx. simpl.
    rewrite map_size_insert_None; [lia |].
    apply eq_None_not_Some. intros Hsome.
    destruct (Hb _ Hsome) as (k & Hk & Heq). apply uuidv4_inj in Heq. lia.
Qed.

(** The block of a retained node sits under the identifier drawn for it:
    the [k]-th one, when [k] retained nodes come before it. *)
Lemma convertNodes_block_at (before after : list N8NNode) (node : N8NNode) :
  is_sticky node = false ->
  st_blocks (convertNodes initial (before ++ node :: after) 0)
    !! uuidv4 (length (retained before))
  = Some (simBlockOf (uuidv4 (length (retained before))) node (length before)).
Proof.
  intros Hkeep. rewrite convertNodes_app. simpl.
  pose proof (convertNodes_uuids initial before 0) as Hu. simpl in Hu.
  rewrite convertNodes_blocks_old
    by (rewrite convertNode_retained by exact Hkeep; simpl; lia).
  rewrite convertNode_retained by exact Hkeep. simpl.
  rewrite Hu. apply lookup_insert_eq.
Qed.

End NodeTranslation.

(** The last retained node of a name owns the binding of that name; no
    assumption on the identifiers is needed for this. *)
Lemma convertNodes_idmap_last `{Platform} (before after : list N8NNode) (node : N8NNode) :
  is_sticky node = false ->
  Forall (fun node' => is_sticky node' = false -> node_name node' <> node_name node)
         after ->
  st_nodeIdMap (convertNodes initial (before ++ node :: after) 0) !! node_name node
  = Some (uuidv4 (length (retained before))).
Proof.
  intros Hkeep Hafter. rewrite convertNodes_app. simpl.
  rewrite convertNodes_idmap_other by exact Hafter.
  rewrite convertNode_retained by exact Hkeep. simpl.
  rewrite convertNodes_uuids. simpl. apply lookup_insert_eq.
Qed.

(** ** Step 2: connections to edges *)

Section ConnectionTranslation.
Context `{Platform}.

Lemma ids_have_blocks_initial : ids_have_blocks initial.
Proof. intros name id Hid. simpl in Hid. now rewrite lookup_empty in Hid. Qed.

Lemma convertNode_ids_have_blocks (st : ConvState) (node : N8NNode) (index : nat) :
  ids_have_blocks st -> ids_have_blocks (convertNode st node index).
Proof.
  intros Hinv. unfold convertNode. destruct (is_sticky node); [exact Hinv |].
  intros name id. simpl.
  destruct (decide (node_name node = name)) as [-> | Hne].
  - rewrite lookup_insert_eq. intros [= <-]. rewrite lookup_insert_eq. eauto.
  - rewrite lookup_insert_ne by exact Hne. intros Hid.
    apply lookup_insert_is_Some'. right. now apply (Hinv name).
Qed.

Lemma convertNodes_ids_have_blocks (st : ConvState) (nodes : list N8NNode) (index : nat) :
  ids_have_blocks st -> ids_have_blocks (convertNodes st nodes index).
Proof.
  revert st index. induction nodes as [|x l IH]; intros st index Hinv; simpl; [exact Hinv |].
  apply IH. now apply convertNode_ids_have_blocks.
Qed.

Lemma resolve_Some (nodeIdMap : gmap string string) (name id : string) :
  resolve nodeIdMap name = Some id -> nodeIdMap !! name = Some id.
Proof.
  unfold resolve. destruct (nodeIdMap !! name) as [x|]; [| discriminate].
  destruct (String.eqb x EmptyString); [discriminate | congruence].
Qed.

Lemma step2_post_refl (st : ConvState) : step2_post st st [] [].
Proof.
  repeat split; [now rewrite app_nil_r |].
  exists []. split; [now rewrite app_nil_r | constructor].
Qed.

Lemma step2_post_trans (st1 st2 st3 : ConvState) (l1 l2 : list Link)
    (w1 w2 : list string) :
  step2_post st1 st2 l1 w1 -> step2_post st2 st3 l2 w2 ->
  step2_post st1 st3 (l1 ++ l2) (w1 ++ w2).
Proof.
  intros (Hb1 & Hm1 & Hw1 & new1 & He1 & Hf1) (Hb2 & Hm2 & Hw2 & new2 & He2 & Hf2).
  rewrite Hb1, Hm1 in *. repeat split; try congruence.
  - now rewrite Hw2, Hw1, <- app_assoc.
  - exists (new1 ++ new2). split.
    + now rewrite He2, He1, <- app_assoc.
    + now apply Forall2_app.
Qed.

Lemma handle_rule_computed (sourceBlock : SimBlock) (outputIndex : nat) :
  handle_rule sourceBlock outputIndex
    (if String.eqb (block_type sourceBlock) "condition"
     then (if outputIndex =? 0 then "condition-cond-true" else "condition-cond-else")
     else "source").
Proof.
  destruct (String.eqb_spec (block_type sourceBlock) "condition") as [Ht | Ht].
  - destruct (Nat.eqb_spec outputIndex 0) as [Hi | Hi].
    + now apply handle_true.
    + now apply handle_else.
  - now apply handle_generic.
Qed.

Lemma convertConnection_post (st : ConvState) (sourceName sourceId : string)
    (outputIndex : nat) (c : N8NConnection) :
  ids_have_blocks st ->
  resolve (st_nodeIdMap st) sourceName = Some sourceId ->
  exists st',
    convertConnection sourceId outputIndex st c = Returns st'
    /\ step2_post st st'
         (List.filter (link_resolved (st_nodeIdMap st))
                      [link_of sourceName outputIndex c])
         (target_warnings (st_nodeIdMap st) c).
Proof.
  intros Hinv Hsource.
  destruct (Hinv _ _ (resolve_Some _ _ _ Hsource)) as [b Hb].
  unfold convertConnection, target_warnings. simpl.
  unfold link_resolved, resolves. simpl. rewrite Hsource, Hb.
  destruct (resolve (st_nodeIdMap st) (conn_node c)) as [targetId|] eqn:Htarget; simpl.
  - eexists. split; [reflexivity |].
    repeat split; simpl; [now rewrite app_nil_r |].
    eexists. split; [reflexivity |].
    constructor; [| constructor].
    exists b. simpl. repeat split; trivial.
    + apply (Hinv (conn_node c)). now apply resolve_Some.
    + apply handle_rule_computed.
  - eexists. split; [reflexivity |].
    repeat split; simpl.
    exists []. split; [now rewrite app_nil_r | constructor].
Qed.

Lemma step2_post_invariant (st st' : ConvState) (links : list Link) (pushed : list string) :
  step2_post st st' links pushed -> ids_have_blocks st -> ids_have_blocks st'.
Proof.
  intros (Hb & Hm & _) Hinv name id. rewrite Hb, Hm. apply Hinv.
Qed.

Lemma convertGroup_post (st : ConvState) (sourceName sourceId : string)
    (outputIndex : nat) (group : list N8NConnection) :
  ids_have_blocks st ->
  resolve (st_nodeIdMap st) sourceName = Some sourceId ->
  exists st',
    convertGroup sourceId outputIndex st group = Returns st'
    /\ step2_post st st'
         (List.filter (link_resolved (st_nodeIdMap st))
                      (List.map (link_of sourceName outputIndex) group))
         (List.flat_map (target_warnings (st_nodeIdMap st)) group).
Proof.
  revert st. induction group as [|c group IH]; intros st Hinv Hsource.
  - exists st. split; [reflexivity | apply step2_post_refl].
  - destruct (convertConnection_post st sourceName sourceId outputIndex c Hinv Hsource)
      as (st1 & Hrun1 & Hpost1).
    pose proof Hpost1 as (Hb1 & Hm1 & _).
    destruct (IH st1) as (st2 & Hrun2 & Hpost2).
    { now apply (step2_post_invariant st st1 _ _ Hpost1). }
    { now rewrite Hm1. }
    exists st2. split.
    + simpl. now rewrite Hrun1.
    + rewrite Hm1 in Hpost2.
      change (List.map (link_of sourceName outputIndex) (c :: group))
        with ([link_of sourceName outputIndex c]
              ++ List.map (link_of sourceName outputIndex) group).
      rewrite List.filter_app.
      change (List.flat_map (target_warnings (st_nodeIdMap st)) (c :: group))
        with (target_warnings (st_nodeIdMap st) c
              ++ List.flat_map (target_warnings (st_nodeIdMap st)) group).
      now apply (step2_post_trans st st1 st2).
Qed.

Lemma convertGroups_post (st : ConvState) (sourceName sourceId : string)
    (groups : list (list N8NConnection)) (outputIndex : nat) :
  ids_have_blocks st ->
  resolve (st_nodeIdMap st) sourceName = Some sourceId ->
  exists st',
    convertGroups sourceId st groups outputIndex = Returns st'
    /\ step2_post st st'
         (List.filter (link_resolved (st_nodeIdMap st))
                      (branch_links sourceName outputIndex groups))
         (List.flat_map (List.flat_map (target_warnings (st_nodeIdMap st))) groups).
Proof.
  revert st outputIndex.
  induction groups as [|group groups IH]; intros st outputIndex Hinv Hsource.
  - exists st. split; [reflexivity | apply step2_post_refl].
  - destruct (convertGroup_post st sourceName sourceId outputIndex group Hinv Hsource)
      as (st1 & Hrun1 & Hpost1).
    pose proof Hpost1 as (Hb1 & Hm1 & _).
    destruct (IH st1 (S outputIndex)) as (st2 & Hrun2 & Hpost2).
    { now apply (step2_post_invariant st st1 _ _ Hpost1). }
    { now rewrite Hm1. }
    exists st2. split.
    + simpl. now rewrite Hrun1.
    + rewrite Hm1 in Hpost2. simpl. rewrite List.filter_app.
      now apply (step2_post_trans st st1 st2).
Qed.

(** No entry of a group whose source is unresolved passes the filter. *)
Lemma filter_unresolved_source (nodeIdMap : gmap string string)
    (sourceName : string) (groups : list (list N8NConnection)) (outputIndex : nat) :
  resolve nodeIdMap sourceName = None ->
  List.filter (link_resolved nodeIdMap) (branch_links sourceName outputIndex groups) = [].
Proof.
  intros Hnone. revert outputIndex.
  induction groups as [|group groups IH]; intros outputIndex; simpl; [reflexivity |].
  rewrite List.filter_app, IH, app_nil_r.
  induction group as [|c group IHg]; simpl; [reflexivity |].
  unfold link_resolved at 1, resolves at 1. simpl. now rewrite Hnone.
Qed.

Lemma convertEntry_post (st : ConvState) (entry : string * N8NConnectionData) :
  ids_have_blocks st ->
  exists st',
    convertEntry st entry = Returns st'
    /\ step2_post st st'
         (List.filter (link_resolved (st_nodeIdMap st))
                      (branch_links (fst entry) 0 (default [] (main (snd entry)))))
         (entry_warnings (st_nodeIdMap st) entry).
Proof.
  intros Hinv. destruct entry as [sourceName connectionData].
  unfold convertEntry, entry_warnings. simpl.
  destruct (resolve (st_nodeIdMap st) sourceName) as [sourceId|] eqn:Hsource.
  - now apply convertGroups_post.
  - eexists. split; [reflexivity |].
    rewrite filter_unresolved_source by exact Hsource.
    repeat split. exists []. split; [simpl; now rewrite app_nil_r | constructor].
Qed.

Lemma convertConnections_post (st : ConvState)
    (entries : list (string * N8NConnectionData)) :
  ids_have_blocks st ->
  exists st',
    convertConnections st entries = Returns st'
    /\ step2_post st st' (resolved_links (st_nodeIdMap st) entries)
                         (connection_warnings (st_nodeIdMap st) entries).
Proof.
  revert st. induction entries as [|entry entries IH]; intros st Hinv.
  - exists st. split; [reflexivity | apply step2_post_refl].
  - destruct (convertEntry_post st entry Hinv) as (st1 & Hrun1 & Hpost1).
    pose proof Hpost1 as (Hb1 & Hm1 & _).
    destruct (IH st1) as (st2 & Hrun2 & Hpost2).
    { now apply (step2_post_invariant st st1 _ _ Hpost1). }
    exists st2. split.
    + simpl. now rewrite Hrun1.
    + rewrite Hm1 in Hpost2.
      unfold resolved_links, all_links, connection_warnings in *. simpl.
      rewrite List.filter_app.
      now apply (step2_post_trans st st1 st2).
Qed.

(** The two steps never throw on a workflow of the declared type, and step 2
    leaves the maps of step 1 as they are. *)
Lemma convertSteps_post (n8nWorkflow : N8NWorkflow) :
  exists st,
    convertSteps n8nWorkflow = Returns st
    /\ step2_post (convertNodes initial (wf_nodes n8nWorkflow) 0) st
         (resolved_links (nodeIdMapOf n8nWorkflow) (wf_connections n8nWorkflow))
         (connection_warnings (nodeIdMapOf n8nWorkflow) (wf_connections n8nWorkflow)).
Proof.
  apply convertConnections_post, convertNodes_ids_have_blocks, ids_have_blocks_initial.
Qed.

(** What the caller reads off the result, in terms of the two steps. *)
Lemma convertN8NToSim_result (n8nWorkflow : N8NWorkflow) :
  let r := convertN8NToSim n8nWorkflow in
  let st1 := convertNodes initial (wf_nodes n8nWorkflow) 0 in
  success r = true
  /\ error r = None
  /\ result_blocks r = st_blocks st1
  /\ result_warnings r
     = node_warnings (wf_nodes n8nWorkflow)
       ++ connection_warnings (nodeIdMapOf n8nWorkflow) (wf_connections n8nWorkflow)
  /\ Forall2 (edge_for (nodeIdMapOf n8nWorkflow) (st_blocks st1))
             (result_edges r)
             (resolved_links (nodeIdMapOf n8nWorkflow) (wf_connections n8nWorkflow)).
Proof.
  intros r st1. subst r.
  destruct (convertSteps_post n8nWorkflow)
    as (st & Hrun & Hb & Hm & Hw & new & He & Hf).
  unfold convertN8NToSim. rewrite Hrun.
  unfold result_blocks, result_edges, result_warnings. simpl.
  repeat split; trivial.
  - rewrite Hw, convertNodes_warnings. simpl.
    destruct (node_warnings _ ++ connection_warnings _ _); reflexivity.
  - rewrite He, convertNodes_edges. exact Hf.
Qed.

End ConnectionTranslation.

(** ** Parameters to sub-blocks *)

Section SubBlocks.
Context `{Platform}.

Lemma lookup_map_entries {A B} (f : string -> A -> B) (obj : gmap string A) (key : string) :
  map_entries f obj !! key = f key <$> obj !! key.
Proof.
  unfold map_entries.
  apply (map_fold_weak_ind (fun out m => out !! key = f key <$> m !! key)).
  - now rewrite !lookup_empty.
  - intros i x m out Hfresh IH.
    destruct (decide (i = key)) as [-> | Hne].
    + now rewrite !lookup_insert_eq.
    + now rewrite !lookup_insert_ne.
Qed.

Lemma dom_map_entries {A B} (f : string -> A -> B) (obj : gmap string A) :
  dom (map_entries f obj) = dom obj.
Proof.
  apply set_eq. intros key.
  now rewrite !elem_of_dom, lookup_map_entries, fmap_is_Some.
Qed.

Lemma size_map_entries {A B} (f : string -> A -> B) (obj : gmap string A) :
  size (map_entries f obj) = size obj.
Proof. now rewrite <- !(size_dom (D := gset string)), dom_map_entries. Qed.

(** A write under [__proto__] leaves the entries as they are; any other
    write is an insertion. *)
Lemma lookup_assign {B} (key key' : string) (value : B) (obj : gmap string B) :
  assign key value obj !! key'
  = if String.eqb key "__proto__" then obj !! key'
    else <[key := value]> obj !! key'.
Proof. unfold assign. now destruct (String.eqb key "__proto__"). Qed.

(** The fallback keeps the entries of the parameters, the one under
    [__proto__] apart. *)
Lemma lookup_assign_entries {A B} (f : string -> A -> B) (obj : gmap string A)
    (key : string) :
  assign_entries f obj !! key
  = if String.eqb key "__proto__" then None else f key <$> obj !! key.
Proof.
  unfold assign_entries.
  apply (map_fold_weak_ind
           (fun out m => out !! key = if String.eqb key "__proto__" then None
                                      else f key <$> m !! key)).
  - rewrite !lookup_empty. now destruct (String.eqb key "__proto__").
  - intros i x m out Hfresh IH. rewrite lookup_assign.
    destruct (String.eqb_spec i "__proto__") as [-> | Hi].
    + rewrite IH. destruct (String.eqb_spec key "__proto__") as [-> | Hkey];
        [reflexivity |].
      now rewrite lookup_insert_ne by congruence.
    + destruct (decide (i = key)) as [-> | Hne].
      * rewrite !lookup_insert_eq.
        destruct (String.eqb_spec key "__proto__"); [contradiction | reflexivity].
      * rewrite !lookup_insert_ne by exact Hne. exact IH.
Qed.

Lemma assign_entries_delete {A B} (f : string -> A -> B) (obj : gmap string A) :
  dom (assign_entries f obj) = dom (delete "__proto__" obj).
Proof.
  apply set_eq. intros key.
  rewrite !elem_of_dom, lookup_assign_entries.
  destruct (String.eqb_spec key "__proto__") as [-> | Hkey].
  - rewrite lookup_delete_eq. split; intros [? [=]].
  - rewrite lookup_delete_ne by congruence. now rewrite fmap_is_Some.
Qed.

Lemma size_assign_entries {A B} (f : string -> A -> B) (obj : gmap string A) :
  size (assign_entries f obj) = size (delete "__proto__" obj).
Proof. now rewrite <- !(size_dom (D := gset string)), assign_entries_delete. Qed.

Lemma Object_prototype_spec (key : string) :
  existsb (String.eqb key) Object_prototype = true <-> key ∈ Object_prototype.
Proof.
  rewrite existsb_exists. split.
  - intros (x & Hx & Heq). apply String.eqb_eq in Heq. subst x.
    now apply list_elem_of_In.
  - intros Hin. exists key. split; [now apply list_elem_of_In | apply String.eqb_refl].
Qed.

(** A read under a name that [Object.prototype] does not have is a lookup
    among the own entries. *)
Lemma read_own (obj : gmap string JValue) (key : string) :
  key ∉ Object_prototype -> read obj key = Data <$> obj !! key.
Proof.
  intros Hkey. unfold read. destruct (obj !! key); [reflexivity |].
  destruct (existsb (String.eqb key) Object_prototype) eqn:Hmember; [| reflexivity].
  now apply Object_prototype_spec in Hmember.
Qed.

(** A read under a name that [Object.prototype] has always finds a value: the
    own entry, or else the inherited member. *)
Lemma read_inherited (obj : gmap string JValue) (key : string) :
  key ∈ Object_prototype ->
  read obj key = match obj !! key with
                 | Some v => Some (Data v)
                 | None => Some (Inherited key)
                 end.
Proof.
  intros Hkey. unfold read. destruct (obj !! key); [reflexivity |].
  apply Object_prototype_spec in Hkey. now rewrite Hkey.
Qed.

Lemma proto_inherited : "__proto__" ∈ Object_prototype.
Proof. apply Object_prototype_spec. reflexivity. Qed.

Lemma truthy_opt_Some (o : option JValue) :
  truthy_opt o = true -> exists v, o = Some v.
Proof. destruct o; [eauto | discriminate]. Qed.

(** The [||] chain of the slot [code] is the first truthy alternate, or
    [null]. *)
Lemma code_chain (a b c d : option JValue) :
  js_or (js_or (js_or (js_or a b) c) d) (Some JNull)
  = Some (default JNull (js_or a (js_or b (js_or c (js_or d None))))).
Proof.
  unfold js_or.
  destruct (truthy_opt a) eqn:Ha; simpl.
  { rewrite !Ha. destruct (truthy_opt_Some a Ha) as [v ->]. reflexivity. }
  destruct (truthy_opt b) eqn:Hb; simpl.
  { rewrite !Hb. destruct (truthy_opt_Some b Hb) as [v ->]. reflexivity. }
  destruct (truthy_opt c) eqn:Hc; simpl.
  { rewrite !Hc. destruct (truthy_opt_Some c Hc) as [v ->]. reflexivity. }
  destruct (truthy_opt d) eqn:Hd; simpl.
  { destruct (truthy_opt_Some d Hd) as [v ->]. reflexivity. }
  reflexivity.
Qed.

(** After the read under the identifier of the slot, the nested conditionals
    of the definition branch run the remaining strategies of
    [code_strategies] in order and stop at the first that yields. *)
Lemma subBlockValue_cases (node : N8NNode) (simType : string) (def : SubBlockConfig) :
  subBlockValue node simType def
  = match read (node_parameters node) (def_id def) with
    | Some v => Some v
    | None => Data <$> first_yield (List.tl (code_strategies node simType def))
    end.
Proof.
  unfold subBlockValue, code_strategies, first_truthy, declared_default.
  destruct def as [id ty val]. simpl.
  destruct (read (node_parameters node) id) as [v|] eqn:Hexact; [reflexivity |].
  f_equal.
  destruct (String.eqb_spec id "code") as [-> | Hcode].
  { now rewrite code_chain. }
  destruct (String.eqb_spec id "message") as [-> | Hmessage]; simpl.
  { destruct (node_parameters node !! "text") as [t|];
      destruct (node_parameters node !! "body") as [b|];
      unfold js_or; simpl;
      try destruct (truthy t) eqn:Ht; try destruct (truthy b) eqn:Hb;
      simpl; rewrite ?Ht, ?Hb; simpl; rewrite ?Ht, ?Hb;
      try reflexivity; destruct val as [[v | f]|]; reflexivity. }
  destruct (String.eqb_spec id "to") as [-> | Hto]; simpl.
  { destruct (node_parameters node !! "sendTo") as [t|];
      unfold js_or; simpl; try destruct (truthy t) eqn:Ht; simpl;
      try reflexivity; destruct val as [[v | f]|]; reflexivity. }
  destruct (String.eqb_spec id "language") as [-> | Hlanguage]; simpl.
  { destruct (String.eqb simType "function"); [reflexivity |].
    destruct val as [[v | f]|]; reflexivity. }
  destruct (String.eqb_spec id "condition") as [-> | Hcondition]; simpl.
  { destruct (node_parameters node !! "conditions") as [t|];
      unfold js_or; simpl; try destruct (truthy t) eqn:Ht; simpl;
      try reflexivity; destruct val as [[v | f]|]; reflexivity. }
  destruct val as [[v | f]|]; reflexivity.
Qed.

(** For a slot whose identifier [Object.prototype] does not have, the value
    is the first that the strategies of [code_strategies] yield. *)
Lemma subBlockValue_strategies (node : N8NNode) (simType : string) (def : SubBlockConfig) :
  def_id def ∉ Object_prototype ->
  subBlockValue node simType def
  = Data <$> first_yield (code_strategies node simType def).
Proof.
  intros Hid. rewrite subBlockValue_cases, read_own by exact Hid.
  unfold code_strategies. cbn [List.tl first_yield].
  now destruct (node_parameters node !! def_id def).
Qed.

(** Whatever the strategies find, the slot gets a value, possibly [null]. *)
Lemma subBlockValue_defined (node : N8NNode) (simType : string) (def : SubBlockConfig) :
  is_Some (subBlockValue node simType def).
Proof.
  rewrite subBlockValue_cases.
  destruct (read (node_parameters node) (def_id def)); [eauto |].
  apply fmap_is_Some. unfold code_strategies. cbn [List.tl first_yield].
  repeat match goal with
         | |- is_Some (match ?o with Some _ => _ | None => _ end) =>
             destruct o; [eauto |]
         end.
  eauto.
Qed.

Lemma declare_snoc {B} (g : SubBlockConfig -> B) (out : gmap string B)
    (defs : list SubBlockConfig) (def : SubBlockConfig) :
  declare g out (defs ++ [def]) = assign (def_id def) (g def) (declare g out defs).
Proof. unfold declare. now rewrite foldl_snoc. Qed.

Lemma declare_other {B} (g : SubBlockConfig -> B) (out : gmap string B)
    (defs : list SubBlockConfig) (id : string) :
  id ∉ def_id <$> defs -> declare g out defs !! id = out !! id.
Proof.
  induction defs as [|d defs IH] using rev_ind; intros Hid; [reflexivity |].
  rewrite fmap_snoc, not_elem_of_app, list_elem_of_singleton in Hid.
  destruct Hid as [Hid Hd].
  rewrite declare_snoc, lookup_assign.
  destruct (String.eqb (def_id d) "__proto__"); [now apply IH |].
  rewrite lookup_insert_ne by congruence. now apply IH.
Qed.

(** The last declaration of an identifier decides its slot. *)
Lemma declare_last {B} (g : SubBlockConfig -> B) (out : gmap string B)
    (before after : list SubBlockConfig) (def : SubBlockConfig) :
  def_id def <> "__proto__" ->
  def_id def ∉ def_id <$> after ->
  declare g out (before ++ def :: after) !! def_id def = Some (g def).
Proof.
  intros Hproto Hafter. unfold declare. rewrite foldl_app. simpl.
  fold (declare g (assign (def_id def) (g def)
                     (foldl (fun subBlocks def0 =>
                               assign (def_id def0) (g def0) subBlocks)
                            out before)) after).
  rewrite declare_other by exact Hafter. rewrite lookup_assign.
  destruct (String.eqb_spec (def_id def) "__proto__"); [contradiction |].
  apply lookup_insert_eq.
Qed.

(** The slots are the declared identifiers, [__proto__] apart. *)
Lemma declare_keys {B} (g : SubBlockConfig -> B) (defs : list SubBlockConfig) (id : string) :
  is_Some (declare g ∅ defs !! id)
  <-> id ∈ def_id <$> defs /\ id <> "__proto__".
Proof.
  induction defs as [|d defs IH] using rev_ind.
  - unfold declare. simpl. rewrite lookup_empty.
    split; [intros [? [=]] | intros [Hin _]; inversion Hin].
  - rewrite declare_snoc, lookup_assign, fmap_snoc, elem_of_app,
      list_elem_of_singleton.
    destruct (String.eqb_spec (def_id d) "__proto__") as [Hd | Hd].
    + rewrite IH. intuition congruence.
    + rewrite lookup_insert_is_Some', IH. intuition congruence.
Qed.

Lemma declare_size {B} (g : SubBlockConfig -> B) (defs : list SubBlockConfig) :
  NoDup (def_id <$> defs) -> "__proto__" ∉ def_id <$> defs ->
  size (declare g ∅ defs) = length defs.
Proof.
  induction defs as [|d defs IH] using rev_ind; intros Hnodup Hproto.
  - reflexivity.
  - rewrite fmap_snoc, NoDup_app in Hnodup. destruct Hnodup as (Hdefs & Hfresh & _).
    rewrite fmap_snoc, not_elem_of_app, list_elem_of_singleton in Hproto.
    destruct Hproto as [Hproto Hd].
    rewrite declare_snoc, length_app. simpl. unfold assign.
    destruct (String.eqb_spec (def_id d) "__proto__") as [Heq | _];
      [now rewrite Heq in Hd |].
    rewrite map_size_insert_None.
    + rewrite IH by assumption. lia.
    + apply eq_None_not_Some. intros Hsome.
      apply (declare_keys g) in Hsome as [Hsome _].
      apply (Hfresh _ Hsome). now apply list_elem_of_singleton.
Qed.

Lemma simBlockOf_subBlocks (blockId : string) (node : N8NNode) (index : nat) :
  block_subBlocks (simBlockOf blockId node index)
  = convertParametersToSubBlocks node (block_type (simBlockOf blockId node index)).
Proof.
  unfold simBlockOf. now destruct (resolveBlockType node) as [[simType height] pushed].
Qed.

End SubBlocks.

(** ** The conversion as a whole *)

Section Conversion.
Context `{Platform}.

Lemma is_sticky_true (node : N8NNode) :
  is_sticky node = true <-> node_type node = STICKY_NOTE.
Proof. unfold is_sticky. apply String.eqb_eq. Qed.

Lemma is_sticky_false (node : N8NNode) :
  is_sticky node = false <-> node_type node <> STICKY_NOTE.
Proof. unfold is_sticky. apply String.eqb_neq. Qed.

Lemma retained_length (nodes : list N8NNode) :
  length (retained nodes)
  = length nodes - length (List.filter is_sticky nodes).
Proof.
  unfold retained. induction nodes as [|x l IH]; simpl; [reflexivity |].
  assert (Hle : length (List.filter is_sticky l) <= length l)
    by apply List.filter_length_le.
  destruct (is_sticky x); simpl; lia.
Qed.

Lemma node_warnings_app (l1 l2 : list N8NNode) :
  node_warnings (l1 ++ l2) = node_warnings l1 ++ node_warnings l2.
Proof. unfold node_warnings. apply List.flat_map_app. Qed.

(** The note nodes contribute nothing to the warnings of step 1. *)
Lemma node_warnings_retained (nodes : list N8NNode) :
  node_warnings nodes = node_warnings (retained nodes).
Proof.
  unfold node_warnings, retained. induction nodes as [|x l IH]; simpl; [reflexivity |].
  destruct (is_sticky x) eqn:Hx; simpl; [exact IH |].
  now rewrite Hx, IH.
Qed.

Lemma resolve_None_lookup (nodeIdMap : gmap string string) (name : string) :
  nodeIdMap !! name = None -> resolve nodeIdMap name = None.
Proof. unfold resolve. now intros ->. Qed.

Lemma handle_rule_cases (sourceBlock : SimBlock) (outputIndex : nat) (handle : string) :
  handle_rule sourceBlock outputIndex handle ->
  (block_type sourceBlock = "condition" ->
     (outputIndex = 0 <-> handle = "condition-cond-true")
     /\ (outputIndex <> 0 <-> handle = "condition-cond-else"))
  /\ (block_type sourceBlock <> "condition" -> handle = "source").
Proof.
  intros [Ht Hi | Ht Hi | Ht]; split; try tauto; intros _; split;
    split; try tauto; try discriminate; intros; congruence.
Qed.

(** In a list of nodes with distinct names, a name picks its node. *)
Lemma NoDup_names_eq (nodes : list N8NNode) (a b : N8NNode) :
  NoDup (node_name <$> nodes) -> a ∈ nodes -> b ∈ nodes ->
  node_name a = node_name b -> a = b.
Proof.
  induction nodes as [|x l IH]; intros Hnodup Ha Hb Hname.
  - inversion Ha.
  - rewrite fmap_cons, NoDup_cons in Hnodup. destruct Hnodup as [Hx Hl].
    apply elem_of_cons in Ha as [-> | Ha]; apply elem_of_cons in Hb as [-> | Hb].
    + reflexivity.
    + exfalso. apply Hx. rewrite Hname. now apply list_elem_of_fmap_2.
    + exfalso. apply Hx. rewrite <- Hname. now apply list_elem_of_fmap_2.
    + now apply IH.
Qed.

Lemma Forall2_left {A B} (P : A -> B -> Prop) (Q : A -> Prop)
    (l : list A) (k : list B) :
  Forall2 P l k -> (forall x y, P x y -> Q x) -> Forall Q l.
Proof.
  intros Hlk HPQ. induction Hlk as [|x y l k Hxy _ IH]; constructor; eauto.
Qed.

(** Every identifier that a name is bound to was drawn from the generator. *)
Lemma convertNodes_idmap_drawn (st : ConvState) (nodes : list N8NNode) (index : nat) :
  (forall name id, st_nodeIdMap st !! name = Some id -> exists k, id = uuidv4 k) ->
  forall name id, st_nodeIdMap (convertNodes st nodes index) !! name = Some id ->
                  exists k, id = uuidv4 k.
Proof.
  revert st index. induction nodes as [|x l IH]; intros st index Hst; simpl; [exact Hst |].
  apply IH. intros name id. unfold convertNode.
  destruct (is_sticky x); [apply Hst |]. simpl.
  destruct (decide (node_name x = name)) as [-> | Hne].
  - rewrite lookup_insert_eq. intros [= <-]. eauto.
  - rewrite lookup_insert_ne by exact Hne. apply Hst.
Qed.

(** With identifiers that are never empty, a name fails the test of step 2
    exactly when no retained node carries it. *)
Lemma resolve_nodeIdMapOf_None (n8nWorkflow : N8NWorkflow) (name : string) :
  (forall n, uuidv4 n <> EmptyString) ->
  resolve (nodeIdMapOf n8nWorkflow) name = None
  <-> Forall (fun node => node_type node <> STICKY_NOTE -> node_name node <> name)
             (wf_nodes n8nWorkflow).
Proof.
  intros Hnonempty.
  assert (Hsame : forall nodes,
             Forall (fun node => is_sticky node = false -> node_name node <> name) nodes
             <-> Forall (fun node => node_type node <> STICKY_NOTE ->
                                     node_name node <> name) nodes).
  { intros nodes. apply Forall_iff. intros node. now rewrite is_sticky_false. }
  rewrite <- Hsame, <- convertNodes_idmap_None. unfold nodeIdMapOf, resolve.
  destruct (st_nodeIdMap _ !! name) as [id|] eqn:Hid; [| tauto].
  destruct (convertNodes_idmap_drawn initial (wf_nodes n8nWorkflow) 0) with (2 := Hid)
    as [k ->].
  { intros n i Hi. simpl in Hi. now rewrite lookup_empty in Hi. }
  destruct (String.eqb_spec (uuidv4 k) EmptyString) as [Hk | Hk].
  - now destruct (Hnonempty k).
  - split; discriminate.
Qed.

(** The block stored for a retained node, read off the result. *)
Lemma result_block_at (n8nWorkflow : N8NWorkflow) (before after : list N8NNode)
    (node : N8NNode) :
  (forall i j, uuidv4 i = uuidv4 j -> i = j) ->
  wf_nodes n8nWorkflow = before ++ node :: after ->
  node_type node <> STICKY_NOTE ->
  result_blocks (convertN8NToSim n8nWorkflow) !! uuidv4 (length (retained before))
  = Some (simBlockOf (uuidv4 (length (retained before))) node (length before)).
Proof.
  intros Hinj Hnodes Hkeep.
  destruct (convertN8NToSim_result n8nWorkflow) as (_ & _ & -> & _).
  rewrite Hnodes. apply convertNodes_block_at; [exact Hinj |].
  now apply is_sticky_false.
Qed.

Lemma result_blocks_size (n8nWorkflow : N8NWorkflow) :
  (forall i j, uuidv4 i = uuidv4 j -> i = j) ->
  size (result_blocks (convertN8NToSim n8nWorkflow))
  = length (wf_nodes n8nWorkflow)
    - length (List.filter is_sticky (wf_nodes n8nWorkflow)).
Proof.
  intros Hinj.
  destruct (convertN8NToSim_result n8nWorkflow) as (_ & _ & -> & _).
  rewrite convertNodes_size by (exact Hinj || apply blocks_bounded_initial).
  simpl. rewrite map_size_empty. apply retained_length.
Qed.

(** What the existence check leaves of the resolved type. *)
Lemma resolveBlockType_unavailable (node : N8NNode) :
  isValidBlockType (getSimBlockType (node_type node)).1 = false ->
  resolveBlockType node
  = ("function", 143%Z,
     [unavailable_warning (getSimBlockType (node_type node)).1 node]).
Proof.
  unfold resolveBlockType.
  destruct (getSimBlockType (node_type node)) as [simType height]. simpl.
  now intros ->.
Qed.

Lemma resolveBlockType_available (node : N8NNode) :
  isValidBlockType (getSimBlockType (node_type node)).1 = true ->
  resolveBlockType node
  = ((getSimBlockType (node_type node)).1, (getSimBlockType (node_type node)).2, []).
Proof.
  unfold resolveBlockType.
  destruct (getSimBlockType (node_type node)) as [simType height]. simpl.
  now intros ->.
Qed.

Lemma unavailable_warning_mentions (simType : string) (node : N8NNode) :
  mentions (unavailable_warning simType node) simType
  /\ mentions (unavailable_warning simType node) (node_name node).
Proof.
  unfold unavailable_warning. split.
  - do 2 apply mentions_append_l. apply mentions_prefix.
  - do 6 apply mentions_append_l. apply mentions_prefix.
Qed.

Lemma simBlockOf_fields (blockId : string) (node : N8NNode) (index : nat) :
  let b := simBlockOf blockId node index in
  block_id b = blockId
  /\ block_name b = node_name node
  /\ block_position b = {| pos_x := fst (node_position node);
                           pos_y := snd (node_position node) |}
  /\ block_type b = (resolveBlockType node).1.1
  /\ block_height b = (resolveBlockType node).1.2
  /\ block_triggerMode b = isTriggerNode node (index =? 0).
Proof.
  unfold simBlockOf.
  now destruct (resolveBlockType node) as [[simType height] pushed].
Qed.

End Conversion.

(** ** The structural check *)

Lemma not_a_string_false (o : option JValue) :
  not_a_string o = false <-> nonempty_string o.
Proof.
  unfold not_a_string, nonempty_string. split.
  - destruct o as [[| | |s| |]|]; simpl; try discriminate;
      try (destruct b; discriminate); try (destruct (n =? 0)%Z; discriminate).
    destruct (String.eqb_spec s EmptyString) as [-> | Hs]; [discriminate |].
    intros _. now exists s.
  - intros (s & -> & Hs). simpl.
    now destruct (String.eqb_spec s EmptyString).
Qed.

(** On a node that is not [null] the three tests return, and they pass
    exactly on a node of the right shape. *)
Lemma validateNode_returns (node : JValue) :
  node <> JNull ->
  exists failure,
    validateNode node = Returns failure
    /\ (failure = None <-> node_shape node).
Proof.
  intros Hnode. unfold validateNode, node_shape.
  destruct node as [| b | n | s | items | fields]; [contradiction | | | | |];
    try (eexists; split; [reflexivity |]; split; [discriminate |];
         intros (? & ? & ? & [=] & _)).
  simpl. fold (field fields "name") (field fields "type") (field fields "position").
  destruct (not_a_string (field fields "name")) eqn:Hname.
  { eexists. split; [reflexivity |]. split; [discriminate |].
    intros (f & a & b & [= <-] & Hn & _).
    apply not_a_string_false in Hn. congruence. }
  destruct (not_a_string (field fields "type")) eqn:Htype.
  { eexists. split; [reflexivity |]. split; [discriminate |].
    intros (f & a & b & [= <-] & _ & Ht & _).
    apply not_a_string_false in Ht. congruence. }
  apply not_a_string_false in Hname, Htype.
  destruct (field fields "position") as [[| | | |[|a [|b [|c l]]]|]|] eqn:Hposition;
    try (eexists; split; [reflexivity |]; split; [discriminate |];
         intros (f & a' & b' & [= <-] & _ & _ & Hp); congruence).
  eexists. split; [reflexivity |]. split; [| reflexivity].
  intros _. exists fields, a, b. auto.
Qed.

Lemma validateNodes_returns (items : list JValue) :
  Forall (fun node => node <> JNull) items ->
  exists verdict,
    validateNodes items = Returns verdict
    /\ (valid verdict = true <-> Forall node_shape items)
    /\ (valid verdict = true -> verdict_error verdict = None)
    /\ (valid verdict = false -> is_Some (verdict_error verdict)).
Proof.
  induction 1 as [|node items Hnode _ IH]; simpl.
  - eexists. split; [reflexivity |]. simpl. repeat split; auto; discriminate.
  - destruct (validateNode_returns node Hnode) as (failure & -> & Hfailure). simpl.
    destruct failure as [msg|].
    + eexists. split; [reflexivity |]. simpl. repeat split; try discriminate; eauto.
      intros Hall. inversion Hall as [|? ? Hshape _]; subst.
      apply Hfailure in Hshape. discriminate.
    + destruct IH as (verdict & -> & Hvalid & Hrest).
      exists verdict. split; [reflexivity |]. split; [| exact Hrest].
      rewrite Hvalid. split.
      * intros Hall. constructor; [now apply Hfailure | exact Hall].
      * intros Hall. now inversion Hall.
Qed.

(** X18. On an input without a [null] among its nodes, the check returns a
    verdict: [valid] exactly on a workflow of the right shape, and with a
    message otherwise. *)
Lemma validateN8NWorkflow_returns (data : JValue) :
  (forall fields items,
      data = JObj fields -> field fields "nodes" = Some (JArr items) ->
      Forall (fun node => node <> JNull) items) ->
  exists verdict,
    validateN8NWorkflow data = Returns verdict
    /\ (valid verdict = true <-> workflow_shape data)
    /\ (valid verdict = true -> verdict_error verdict = None)
    /\ (valid verdict = false -> is_Some (verdict_error verdict)).
Proof.
  intros Hnodes. unfold validateN8NWorkflow, workflow_shape.
  destruct data as [| b | n | s | items | fields];
    try (simpl; try destruct b; try destruct (n =? 0)%Z;
         try destruct (String.eqb s EmptyString); simpl;
         eexists; (split; [reflexivity |]); simpl;
         repeat split; try discriminate; eauto;
         intros (? & ? & ? & [=] & _)).
  simpl. fold (field fields "nodes") (field fields "connections").
  destruct (field fields "nodes") as [[| | | |items|]|] eqn:Hitems;
    try (eexists; (split; [reflexivity |]); simpl;
         repeat split; try discriminate; eauto;
         intros (f & i & c & [= <-] & Hi & _); congruence).
  destruct items as [|node items]; simpl.
  { eexists. split; [reflexivity |]. simpl. repeat split; try discriminate; eauto.
    intros (f & i & c & [= <-] & Hi & Hne & _). congruence. }
  destruct (field fields "connections") as [[| | | |citems|cfields]|] eqn:Hconnections;
    simpl;
    try (try destruct b; try destruct (n =? 0)%Z;
         try destruct (String.eqb s EmptyString); simpl;
         eexists; (split; [reflexivity |]); simpl;
         repeat split; try discriminate; eauto;
         intros (f & i & c & [= <-] & _ & _ & Hc & [[? ->] | [? ->]] & _);
         congruence).
  - destruct (validateNodes_returns (node :: items)) as (verdict & Hrun & Hvalid & Hrest).
    { now apply (Hnodes fields). }
    simpl in Hrun. rewrite Hrun. exists verdict. split; [reflexivity |].
    split; [| exact Hrest]. rewrite Hvalid. split.
    + intros Hall. exists fields, (node :: items), (JArr citems).
      repeat split; trivial; [discriminate | left; eauto].
    + intros (f & i & c & [= <-] & Hi & _ & _ & _ & Hall). congruence.
  - destruct (validateNodes_returns (node :: items)) as (verdict & Hrun & Hvalid & Hrest).
    { now apply (Hnodes fields). }
    simpl in Hrun. rewrite Hrun. exists verdict. split; [reflexivity |].
    split; [| exact Hrest]. rewrite Hvalid. split.
    + intros Hall. exists fields, (node :: items), (JObj cfields).
      repeat split; trivial; [discriminate | right; eauto].
    + intros (f & i & c & [= <-] & Hi & _ & _ & _ & Hall). congruence.
Qed.

(** * The claims *)

(** C2. In the result of a conversion, which always succeeds, the edges are
    in one-to-one correspondence, in order, with the connection entries whose
    two names resolve. For each edge and its entry: the source block is in
    the block map; when its type is [condition], the source handle is
    [condition-cond-true] exactly when the branch index of the entry is 0 and
    [condition-cond-else] exactly when it is not; when its type is anything
    else the source handle is [source] whatever the branch index; and the
    target handle is [target]. *)
Theorem C2_edge_handles `{Platform} (n8nWorkflow : N8NWorkflow) :
  let r := convertN8NToSim n8nWorkflow in
  success r = true
  /\ Forall2
       (fun e l =>
          exists sourceBlock,
            result_blocks r !! edge_source e = Some sourceBlock
            /\ resolve (nodeIdMapOf n8nWorkflow) (link_source l)
               = Some (edge_source e)
            /\ (block_type sourceBlock = "condition" ->
                (link_output l = 0 <-> edge_sourceHandle e = "condition-cond-true")
                /\ (link_output l <> 0
                    <-> edge_sourceHandle e = "condition-cond-else"))
            /\ (block_type sourceBlock <> "condition" ->
                edge_sourceHandle e = "source")
            /\ edge_targetHandle e = "target")
       (result_edges r)
       (resolved_links (nodeIdMapOf n8nWorkflow) (wf_connections n8nWorkflow)).
Proof.
  intros r. subst r.
  destruct (convertN8NToSim_result n8nWorkflow) as (Hok & _ & Hblocks & _ & Hedges).
  split; [exact Hok |].
  rewrite Hblocks. eapply Forall2_impl; [exact Hedges |].
  intros e l (b & Hsource & _ & Hb & _ & Hrule & Htarget). simpl in *.
  exists b. apply handle_rule_cases in Hrule. tauto.
Qed.

(** C3. When no identifier is the empty string: the conversion succeeds;
    both ends of every edge are keys of the block map of the result; the
    edges correspond one to one, in order, to the connection entries whose
    source name and target name are both bound in the name-to-id map, so an
    entry with an unbound name has no edge; a name is unbound exactly when no
    node other than a note carries it; and the warnings of step 2 are, group
    by group, the one source warning of a group whose source is unbound (and
    nothing else for that group), or else one target warning for each entry
    whose target is unbound. *)
Theorem C3_dangling_references `{Platform} (n8nWorkflow : N8NWorkflow) :
  (forall n, uuidv4 n <> EmptyString) ->
  let r := convertN8NToSim n8nWorkflow in
  let m := nodeIdMapOf n8nWorkflow in
  success r = true
  /\ Forall (fun e => is_Some (result_blocks r !! edge_source e)
                      /\ is_Some (result_blocks r !! edge_target e))
            (result_edges r)
  /\ Forall2 (fun e l => m !! link_source l = Some (edge_source e)
                         /\ m !! conn_node (link_connection l)
                            = Some (edge_target e))
             (result_edges r) (resolved_links m (wf_connections n8nWorkflow))
  /\ (forall name,
        resolve m name = None
        <-> Forall (fun node => node_type node <> STICKY_NOTE ->
                                node_name node <> name)
                   (wf_nodes n8nWorkflow))
  /\ result_warnings r
     = node_warnings (wf_nodes n8nWorkflow)
       ++ connection_warnings m (wf_connections n8nWorkflow).
Proof.
  intros Hnonempty r m. subst r m.
  destruct (convertN8NToSim_result n8nWorkflow)
    as (Hok & _ & Hblocks & Hwarnings & Hedges).
  repeat split; trivial.
  - rewrite Hblocks. eapply Forall2_left; [exact Hedges |].
    intros e l (b & _ & _ & Hb & Ht & _). eauto.
  - eapply Forall2_impl; [exact Hedges |].
    intros e l (b & Hs & Ht & _). split; now apply resolve_Some.
  - now apply resolve_nodeIdMapOf_None.
  - now apply resolve_nodeIdMapOf_None.
Qed.

(** C4. When the generator never repeats an identifier: the conversion
    succeeds with as many blocks as there are nodes, less the notes; the step
    on a note returns the bindings as they were, so it pushes no warning and
    binds no name, and all warnings of step 1 come from the other nodes.
    When moreover the names of the nodes are distinct, as the data model
    assumes, the name of every note is unbound in the name-to-id map, fails
    the test of step 2, and no edge comes from a connection entry that names
    it, as a source or as a target. *)
Theorem C4_sticky_notes_dropped `{Platform} (n8nWorkflow : N8NWorkflow) :
  (forall i j, uuidv4 i = uuidv4 j -> i = j) ->
  let r := convertN8NToSim n8nWorkflow in
  let m := nodeIdMapOf n8nWorkflow in
  success r = true
  /\ size (result_blocks r)
     = length (wf_nodes n8nWorkflow)
       - length (List.filter is_sticky (wf_nodes n8nWorkflow))
  /\ (forall node st index,
        node_type node = STICKY_NOTE -> convertNode st node index = st)
  /\ result_warnings r
     = node_warnings (retained (wf_nodes n8nWorkflow))
       ++ connection_warnings m (wf_connections n8nWorkflow)
  /\ (NoDup (node_name <$> wf_nodes n8nWorkflow) ->
      forall node,
        node ∈ wf_nodes n8nWorkflow -> node_type node = STICKY_NOTE ->
        m !! node_name node = None
        /\ resolve m (node_name node) = None
        /\ Forall (fun l => link_source l <> node_name node
                            /\ conn_node (link_connection l) <> node_name node)
                  (resolved_links m (wf_connections n8nWorkflow))).
Proof.
  intros Hinj r m. subst r m.
  destruct (convertN8NToSim_result n8nWorkflow) as (Hok & _ & _ & Hwarnings & _).
  split; [exact Hok |]. split; [now apply result_blocks_size |].
  split.
  { intros node st index Hsticky. apply convertNode_sticky.
    now apply is_sticky_true. }
  split; [now rewrite Hwarnings, <- node_warnings_retained |].
  intros Hnodup node Hin Hsticky.
  assert (Hunbound : nodeIdMapOf n8nWorkflow !! node_name node = None).
  { apply convertNodes_idmap_None. apply Forall_forall.
    intros other Hother Hkeep Hname.
    assert (other = node) as -> by now apply (NoDup_names_eq (wf_nodes n8nWorkflow)).
    apply is_sticky_true in Hsticky. congruence. }
  pose proof (resolve_None_lookup _ _ Hunbound) as Hunresolved.
  repeat split; trivial.
  apply Forall_forall. intros l Hl.
  apply list_elem_of_In, List.filter_In in Hl as [_ Hl].
  unfold link_resolved, resolves in Hl. apply andb_true_iff in Hl as [Hs Ht].
  split; intros Heq; rewrite Heq, Hunresolved in *; discriminate.
Qed.

(** C5. When the generator never repeats an identifier: for a node other
    than a note whose resolved type fails the existence check, the conversion
    succeeds without an error; the block stored for the node has the type
    [function] and the height 143; and the warnings of the result are those
    of the nodes before it, then one warning for this node, then those of
    the nodes after it and of the connections; that one warning contains the
    name of the node and the resolved type. *)
Theorem C5_unavailable_type `{Platform} (n8nWorkflow : N8NWorkflow)
    (before after : list N8NNode) (node : N8NNode) :
  (forall i j, uuidv4 i = uuidv4 j -> i = j) ->
  wf_nodes n8nWorkflow = before ++ node :: after ->
  node_type node <> STICKY_NOTE ->
  isValidBlockType (getSimBlockType (node_type node)).1 = false ->
  let r := convertN8NToSim n8nWorkflow in
  success r = true /\ error r = None
  /\ exists b w,
       result_blocks r !! uuidv4 (length (retained before)) = Some b
       /\ block_name b = node_name node
       /\ block_type b = "function"
       /\ block_height b = 143%Z
       /\ mentions w (node_name node)
       /\ mentions w (getSimBlockType (node_type node)).1
       /\ result_warnings r
          = node_warnings before ++ [w] ++ node_warnings after
            ++ connection_warnings (nodeIdMapOf n8nWorkflow)
                                   (wf_connections n8nWorkflow).
Proof.
  intros Hinj Hnodes Hkeep Hunavailable r. subst r.
  destruct (convertN8NToSim_result n8nWorkflow) as (Hok & Herr & _ & Hwarnings & _).
  split; [exact Hok |]. split; [exact Herr |].
  exists (simBlockOf (uuidv4 (length (retained before))) node (length before)),
         (unavailable_warning (getSimBlockType (node_type node)).1 node).
  destruct (simBlockOf_fields (uuidv4 (length (retained before))) node (length before))
    as (_ & Hname & _ & Htype & Hheight & _).
  rewrite (resolveBlockType_unavailable node Hunavailable) in Htype, Hheight.
  destruct (unavailable_warning_mentions (getSimBlockType (node_type node)).1 node)
    as [Hmtype Hmname].
  repeat split; trivial.
  - now apply (result_block_at n8nWorkflow before after).
  - rewrite Hwarnings, Hnodes, node_warnings_app.
    change (node :: after) with ([node] ++ after).
    rewrite node_warnings_app, <- !app_assoc. do 2 f_equal.
    unfold node_warnings. simpl.
    apply is_sticky_false in Hkeep. rewrite Hkeep.
    now rewrite (resolveBlockType_unavailable node Hunavailable).
Qed.

(** C8. [isTriggerNode] answers [true] exactly when the type of the node is
    one of the known trigger types, or ends with [Trigger], or the flag for
    the first node is set. When the generator never repeats an identifier,
    the block stored for a node other than a note has its trigger flag set
    exactly when the type is a known trigger type, or ends with [Trigger], or
    no node comes before it in the list of the workflow. *)
Theorem C8_trigger_classification `{Platform} (n8nWorkflow : N8NWorkflow)
    (before after : list N8NNode) (node : N8NNode) :
  (forall i j, uuidv4 i = uuidv4 j -> i = j) ->
  wf_nodes n8nWorkflow = before ++ node :: after ->
  node_type node <> STICKY_NOTE ->
  (forall isFirstNode,
      isTriggerNode node isFirstNode = true
      <-> In (node_type node) triggerTypes
          \/ (exists p, node_type node = p +:+ "Trigger")
          \/ isFirstNode = true)
  /\ exists b,
       result_blocks (convertN8NToSim n8nWorkflow)
         !! uuidv4 (length (retained before)) = Some b
       /\ block_name b = node_name node
       /\ (block_triggerMode b = true
           <-> In (node_type node) triggerTypes
               \/ (exists p, node_type node = p +:+ "Trigger")
               \/ length before = 0).
Proof.
  intros Hinj Hnodes Hkeep. split; [apply isTriggerNode_spec |].
  exists (simBlockOf (uuidv4 (length (retained before))) node (length before)).
  destruct (simBlockOf_fields (uuidv4 (length (retained before))) node (length before))
    as (_ & Hname & _ & _ & _ & Htrigger).
  split; [now apply (result_block_at n8nWorkflow before after) |].
  split; [exact Hname |].
  rewrite Htrigger, isTriggerNode_spec, Nat.eqb_eq. reflexivity.
Qed.

(** C10. When the generator never repeats an identifier, whether or not
    names repeat: there are as many blocks as nodes other than notes, and
    every such node has its own block under the identifier drawn for it. For
    a node other than a note that is the last of its name among such nodes,
    the name-to-id map binds the name to the identifier of that node, and
    every edge whose connection entry names it, as a source or as a target,
    has that identifier at that end. *)
Theorem C10_duplicate_names `{Platform} (n8nWorkflow : N8NWorkflow)
    (before after : list N8NNode) (node : N8NNode) :
  (forall i j, uuidv4 i = uuidv4 j -> i = j) ->
  wf_nodes n8nWorkflow = before ++ node :: after ->
  node_type node <> STICKY_NOTE ->
  Forall (fun later => node_type later <> STICKY_NOTE ->
                       node_name later <> node_name node) after ->
  let r := convertN8NToSim n8nWorkflow in
  let m := nodeIdMapOf n8nWorkflow in
  let id := uuidv4 (length (retained before)) in
  size (result_blocks r)
  = length (wf_nodes n8nWorkflow)
    - length (List.filter is_sticky (wf_nodes n8nWorkflow))
  /\ (forall before' after' node',
        wf_nodes n8nWorkflow = before' ++ node' :: after' ->
        node_type node' <> STICKY_NOTE ->
        exists b, result_blocks r !! uuidv4 (length (retained before')) = Some b
                  /\ block_id b = uuidv4 (length (retained before'))
                  /\ block_name b = node_name node'
                  /\ pos_x (block_position b) = fst (node_position node')
                  /\ pos_y (block_position b) = snd (node_position node'))
  /\ m !! node_name node = Some id
  /\ (exists b, result_blocks r !! id = Some b /\ block_id b = id
                /\ block_name b = node_name node)
  /\ Forall2 (fun e l =>
                (link_source l = node_name node -> edge_source e = id)
                /\ (conn_node (link_connection l) = node_name node ->
                    edge_target e = id))
             (result_edges r) (resolved_links m (wf_connections n8nWorkflow)).
Proof.
  intros Hinj Hnodes Hkeep Hlast r m id. subst r m id.
  assert (Hblock : forall before' after' node',
             wf_nodes n8nWorkflow = before' ++ node' :: after' ->
             node_type node' <> STICKY_NOTE ->
             exists b, result_blocks (convertN8NToSim n8nWorkflow)
                         !! uuidv4 (length (retained before')) = Some b
                       /\ block_id b = uuidv4 (length (retained before'))
                       /\ block_name b = node_name node'
                       /\ pos_x (block_position b) = fst (node_position node')
                  /\ pos_y (block_position b) = snd (node_position node')).
  { intros before' after' node' Hnodes' Hkeep'.
    exists (simBlockOf (uuidv4 (length (retained before'))) node' (length before')).
    split; [now apply (result_block_at n8nWorkflow before' after') |].
    destruct (simBlockOf_fields (uuidv4 (length (retained before'))) node'
                                (length before')) as (? & ? & Hposition & _).
    rewrite Hposition. auto. }
  assert (Hbound : nodeIdMapOf n8nWorkflow !! node_name node
                   = Some (uuidv4 (length (retained before)))).
  { unfold nodeIdMapOf. rewrite Hnodes. apply convertNodes_idmap_last.
    - now apply is_sticky_false.
    - eapply Forall_impl; [exact Hlast |]. simpl. intros later Hlater Hk.
      apply Hlater. now apply is_sticky_false. }
  split; [now apply result_blocks_size |].
  split; [exact Hblock |]. split; [exact Hbound |].
  split.
  { destruct (Hblock before after node Hnodes Hkeep) as (b & ? & ? & ? & _). eauto. }
  destruct (convertN8NToSim_result n8nWorkflow) as (_ & _ & _ & _ & Hedges).
  eapply Forall2_impl; [exact Hedges |].
  intros e l (b & Hs & Ht & _). apply resolve_Some in Hs, Ht.
  split; intros Heq; rewrite Heq in *; congruence.
Qed.

(** C6 (as amended). When the generator never repeats an identifier, take
    the block stored for a node other than a note, and let its type have
    sub-block declarations, none under an identifier that names a member of
    [Object.prototype]. The slots of the block are exactly the declared
    identifiers, one slot for each distinct one, so as many slots as
    declarations when the declared identifiers are pairwise distinct. The
    slot of an identifier has the type of the last declaration of that
    identifier and a defined value, possibly [null]: the first value that the
    strategies of [code_strategies] yield for that declaration, where an
    alternate key counts when its value is truthy and the strategy of the
    slot [code] ends the search, with [null] when no alternate key counts. *)
Theorem C6_declared_slots `{Platform} (n8nWorkflow : N8NWorkflow)
    (before after : list N8NNode) (node : N8NNode) (defs : list SubBlockConfig) :
  (forall i j, uuidv4 i = uuidv4 j -> i = j) ->
  wf_nodes n8nWorkflow = before ++ node :: after ->
  node_type node <> STICKY_NOTE ->
  exists b,
    result_blocks (convertN8NToSim n8nWorkflow)
      !! uuidv4 (length (retained before)) = Some b
    /\ block_name b = node_name node
    /\ (getBlock (block_type b) ≫= cfg_subBlocks = Some defs ->
        Forall (fun def => def_id def ∉ Object_prototype) defs ->
        (forall id, is_Some (block_subBlocks b !! id) <-> id ∈ def_id <$> defs)
        /\ (NoDup (def_id <$> defs) -> size (block_subBlocks b) = length defs)
        /\ (forall earlier def later,
              defs = earlier ++ def :: later ->
              def_id def ∉ def_id <$> later ->
              exists sb,
                block_subBlocks b !! def_id def = Some sb
                /\ sb_id sb = def_id def
                /\ sb_type sb = def_type def
                /\ is_Some (sb_value sb)
                /\ sb_value sb
                   = Data <$> first_yield (code_strategies node (block_type b) def))).
Proof.
  intros Hinj Hnodes Hkeep.
  set (blockId := uuidv4 (length (retained before))).
  exists (simBlockOf blockId node (length before)).
  split; [now apply (result_block_at n8nWorkflow before after) |].
  split; [apply simBlockOf_fields |].
  intros Hdefs Hplain. rewrite simBlockOf_subBlocks in *.
  set (simType := block_type (simBlockOf blockId node (length before))) in *.
  unfold convertParametersToSubBlocks. rewrite Hdefs.
  assert (Hproto : "__proto__" ∉ def_id <$> defs).
  { intros Hin. apply list_elem_of_fmap in Hin as (def & Hid & Hdef).
    rewrite Forall_forall in Hplain. apply (Hplain def Hdef).
    rewrite <- Hid. apply proto_inherited. }
  split; [| split].
  - intros id. rewrite declare_keys. split; [tauto |].
    intros Hid. split; [exact Hid | congruence].
  - intros Hnodup. now apply declare_size.
  - intros earlier def later -> Hlast.
    assert (Hdef : def_id def ∉ Object_prototype).
    { rewrite Forall_forall in Hplain. apply Hplain.
      apply elem_of_app. right. left. }
    exists (subBlockOfDef node simType def).
    split.
    { apply declare_last; [| exact Hlast].
      intros Heq. apply Hdef. rewrite Heq. apply proto_inherited. }
    unfold subBlockOfDef. simpl. repeat split.
    + apply subBlockValue_defined.
    + now apply subBlockValue_strategies.
Qed.

(** C6 (the claim fails). A block type with two declarations of the slot
    [code] gives a block with one slot, not two. For a code node without
    parameters and one declaration of the slot [code] with the default
    [return 0], the slot holds [null], while the strategies in the order of
    the claim reach the declared default. And for a node whose [text] is the
    empty string and whose [body] is [hi], the slot [message] holds [hi],
    while the first alternate key with a defined value is [text]. *)
Lemma C6_counterexample :
  (@getBlock Examples.twice
      (block_type (@simBlockOf Examples.twice "b" Examples.bare_code_node 0))
      ≫= cfg_subBlocks = Some Examples.twice_declared
   /\ length Examples.twice_declared = 2
   /\ size (block_subBlocks
              (@simBlockOf Examples.twice "b" Examples.bare_code_node 0)) = 1)
  /\ (@getBlock Examples.defaulted
        (block_type (@simBlockOf Examples.defaulted "b" Examples.bare_code_node 0))
        ≫= cfg_subBlocks = Some [Examples.code_with_default]
      /\ sb_value <$> block_subBlocks
                        (@simBlockOf Examples.defaulted "b"
                                     Examples.bare_code_node 0) !! "code"
         = Some (Some (Data JNull))
      /\ @spec_slot_value Examples.defaulted Examples.bare_code_node "function"
                          Examples.code_with_default
         = Some (JStr "return 0"))
  /\ (@subBlockValue Examples.demo Examples.empty_text_node "function"
                     Examples.message_slot
      = Some (Data (JStr "hi"))
      /\ @spec_slot_value Examples.demo Examples.empty_text_node "function"
                          Examples.message_slot
         = Some (JStr EmptyString)).
Proof. repeat split; vm_compute; reflexivity. Qed.

(** C7 (the code departs from the claim). The parameters of the node [Hook]
    are parsed from [{"__proto__": "x", "path": "in"}], and its type,
    [webhook], has no sub-block declarations. The claim asks for one slot for
    each of the two parameters. The block has one slot, for [path]: the write
    [subBlocks[key] = ...] under the key [__proto__] replaces the prototype
    of the record and stores nothing. *)
Theorem C7_proto_parameter_dropped :
  exists b,
    result_blocks (@convertN8NToSim Examples.demo Examples.proto_workflow)
      !! Examples.tally 0 = Some b
    /\ block_name b = "Hook"
    /\ @getBlock Examples.demo (block_type b) ≫= cfg_subBlocks = None
    /\ size (node_parameters Examples.proto_node) = 2
    /\ node_parameters Examples.proto_node !! "__proto__" = Some (JStr "x")
    /\ size (block_subBlocks b) = 1
    /\ block_subBlocks b !! "__proto__" = None
    /\ sb_value <$> block_subBlocks b !! "path" = Some (Some (Data (JStr "in"))).
Proof. eexists. repeat split; vm_compute; reflexivity. Qed.

(** C9 (the code departs from the claim). On a workflow whose list of nodes
    holds [null], the check passes its tests on the top-level value and then
    reads [node.name] of [null]: it throws a [TypeError] and returns no
    verdict. *)
Theorem C9_null_node_throws :
  validateN8NWorkflow Examples.null_node_workflow
  = Throws "Cannot read properties of null (reading 'name')".
Proof. vm_compute. reflexivity. Qed.

(** ** The end-to-end examples of the specification *)

(** One webhook node and no connections: one [webhook] block with the
    trigger flag, no edge, no warning. *)
Example example_only_webhook :
  let r := @convertN8NToSim Examples.demo Examples.only_webhook in
  success r = true
  /\ size (result_blocks r) = 1
  /\ (fun b => (block_type b, block_triggerMode b))
       <$> result_blocks r !! Examples.tally 0 = Some ("webhook", true)
  /\ result_edges r = []
  /\ warnings r = None.
Proof. repeat split; vm_compute; reflexivity. Qed.

(** A conditional node wired to two nodes on the branches 0 and 1: two edges
    from its block, one by the "true" handle and one by the "else" handle. *)
Example example_two_branches :
  let r := @convertN8NToSim Examples.demo Examples.two_branches in
  List.map (fun e => (edge_source e, edge_target e, edge_sourceHandle e))
           (result_edges r)
  = [ (Examples.tally 0, Examples.tally 1, "condition-cond-true");
      (Examples.tally 0, Examples.tally 2, "condition-cond-else") ].
Proof. vm_compute. reflexivity. Qed.

(** A sole node of an unknown type without a separator: one [function] block
    of height 143, and one warning when the platform does not have the
    [function] type, none when it has. *)
Example example_only_bare :
  (let r := @convertN8NToSim Examples.without_function Examples.only_bare in
   success r = true
   /\ (fun b => (block_type b, block_height b))
        <$> result_blocks r !! Examples.tally 0 = Some ("function", 143%Z)
   /\ length (result_warnings r) = 1)
  /\ (let r := @convertN8NToSim Examples.demo Examples.only_bare in
      success r = true
      /\ (fun b => (block_type b, block_height b))
           <$> result_blocks r !! Examples.tally 0 = Some ("function", 143%Z)
      /\ warnings r = None).
Proof. repeat split; vm_compute; reflexivity. Qed.

(** ** The claims on the small workflows *)

Lemma tally_inj (i j : nat) : Examples.tally i = Examples.tally j -> i = j.
Proof.
  revert j. induction i as [|i IH]; intros [|j]; simpl; intros Heq;
    try discriminate; [reflexivity |].
  injection Heq as Heq. f_equal. now apply IH.
Qed.

Lemma tally_nonempty (n : nat) : Examples.tally n <> EmptyString.
Proof. destruct n; discriminate. Qed.

Lemma plain_names_distinct :
  NoDup (node_name <$> wf_nodes Examples.plain_workflow).
Proof. apply (bool_decide_unpack _). vm_compute. exact I. Qed.

(** C3 on the demo workflow: three edges for six connection entries, and one
    warning for each of the two unbound targets and the unbound source. *)
Lemma C3_witness :
  let r := @convertN8NToSim Examples.demo Examples.demo_workflow in
  let m := @nodeIdMapOf Examples.demo Examples.demo_workflow in
  (forall n, Examples.tally n <> EmptyString)
  /\ success r = true
  /\ Forall (fun e => is_Some (result_blocks r !! edge_source e)
                      /\ is_Some (result_blocks r !! edge_target e))
            (result_edges r)
  /\ Forall2 (fun e l => m !! link_source l = Some (edge_source e)
                         /\ m !! conn_node (link_connection l)
                            = Some (edge_target e))
             (result_edges r)
             (resolved_links m (wf_connections Examples.demo_workflow))
  /\ result_warnings r
     = @node_warnings Examples.demo (wf_nodes Examples.demo_workflow)
       ++ connection_warnings m (wf_connections Examples.demo_workflow).
Proof.
  intros r m.
  destruct (@C3_dangling_references Examples.demo Examples.demo_workflow
                                    tally_nonempty)
    as (Hok & Hends & Hedges & _ & Hwarnings).
  split; [exact tally_nonempty |]. repeat split; assumption.
Defined.

(** C4 on the plain workflow: four nodes, one of them a note, three
    blocks, and the name of the note unbound. *)
Lemma C4_witness :
  let r := @convertN8NToSim Examples.demo Examples.plain_workflow in
  let m := @nodeIdMapOf Examples.demo Examples.plain_workflow in
  success r = true
  /\ size (result_blocks r) = 4 - 1
  /\ m !! "Note" = None
  /\ resolve m "Note" = None.
Proof.
  intros r m.
  destruct (@C4_sticky_notes_dropped Examples.demo Examples.plain_workflow tally_inj)
    as (Hok & Hsize & _ & _ & Hnotes).
  destruct (Hnotes plain_names_distinct (Examples.node "Note" "n8n-nodes-base.stickyNote" []))
    as (Hunbound & Hunresolved & _); [| reflexivity |].
  { apply list_elem_of_In. simpl. tauto. }
  repeat split; assumption.
Defined.

(** C5 on the demo workflow: the node [Mail] of the type
    [n8n-nodes-base.sendGrid] resolves to [send_grid], which the demo
    platform does not have. *)
Lemma C5_witness :
  let r := @convertN8NToSim Examples.demo Examples.demo_workflow in
  success r = true
  /\ exists b w,
       result_blocks r !! Examples.tally 2 = Some b
       /\ block_name b = "Mail"
       /\ block_type b = "function"
       /\ block_height b = 143%Z
       /\ mentions w "Mail"
       /\ mentions w "send_grid".
Proof.
  intros r.
  destruct (@C5_unavailable_type Examples.demo Examples.demo_workflow
              (firstn 3 (wf_nodes Examples.demo_workflow))
              (skipn 4 (wf_nodes Examples.demo_workflow))
              (Examples.node "Mail" "n8n-nodes-base.sendGrid" [])
              tally_inj eq_refl ltac:(discriminate) eq_refl)
    as (Hok & _ & b & w & Hb & Hname & Htype & Hheight & Hm1 & Hm2 & _).
  split; [exact Hok |]. exists b, w. repeat split; assumption.
Defined.

(** C6 on the demo workflow: the second node named [Twin] is a code node; it
    becomes a [function] block with the two declared slots. *)
Lemma C6_witness :
  exists b,
    result_blocks (@convertN8NToSim Examples.demo Examples.demo_workflow)
      !! Examples.tally 4 = Some b
    /\ block_name b = "Twin"
    /\ @getBlock Examples.demo (block_type b) ≫= cfg_subBlocks
       = cfg_subBlocks Examples.function_block
    /\ size (block_subBlocks b) = 2
    /\ forall id, is_Some (block_subBlocks b !! id) <-> id ∈ ["code"; "language"].
Proof.
  destruct (@C6_declared_slots Examples.demo Examples.demo_workflow
              (firstn 5 (wf_nodes Examples.demo_workflow)) []
              (Examples.node "Twin" "n8n-nodes-base.code" [("jsCode", JStr "return 2")])
              [ {| def_id := "code"; def_type := "code"; def_value := None |};
                {| def_id := "language"; def_type := "dropdown";
                   def_value := Some (FixedValue (JStr "python")) |} ]
              tally_inj eq_refl ltac:(discriminate))
    as (b & Hb & Hname & Hslots).
  pose proof (@result_block_at Examples.demo Examples.demo_workflow
                (firstn 5 (wf_nodes Examples.demo_workflow)) []
                (Examples.node "Twin" "n8n-nodes-base.code" [("jsCode", JStr "return 2")])
                tally_inj eq_refl ltac:(discriminate)) as Hstored.
  rewrite Hb in Hstored. injection Hstored as Hstored.
  assert (Hdefs : @getBlock Examples.demo (block_type b) ≫= cfg_subBlocks
                  = cfg_subBlocks Examples.function_block)
    by (rewrite Hstored; reflexivity).
  exists b. split; [exact Hb |]. split; [exact Hname |]. split; [exact Hdefs |].
  assert (Hplain : Forall (fun def => def_id def ∉ Object_prototype)
                          [ {| def_id := "code"; def_type := "code";
                               def_value := None |};
                            {| def_id := "language"; def_type := "dropdown";
                               def_value := Some (FixedValue (JStr "python")) |} ])
    by (apply (bool_decide_unpack _); vm_compute; exact I).
  destruct (Hslots Hdefs Hplain) as (Hkeys & Hsize & _).
  split; [| exact Hkeys].
  apply Hsize. apply (bool_decide_unpack _). vm_compute. exact I.
Defined.

(** C8 on the demo workflow: the webhook node comes first. *)
Lemma C8_witness :
  exists b,
    result_blocks (@convertN8NToSim Examples.demo Examples.demo_workflow)
      !! Examples.tally 0 = Some b
    /\ block_name b = "Hook"
    /\ (block_triggerMode b = true
        <-> In "n8n-nodes-base.webhook" triggerTypes
            \/ (exists p, "n8n-nodes-base.webhook" = p +:+ "Trigger")
            \/ 0 = 0).
Proof.
  destruct (@C8_trigger_classification Examples.demo Examples.demo_workflow
              [] (skipn 1 (wf_nodes Examples.demo_workflow))
              (Examples.node "Hook" "n8n-nodes-base.webhook" [("path", JStr "in")])
              tally_inj eq_refl ltac:(discriminate))
    as (_ & b & Hb & Hname & Htrigger).
  exists b. repeat split; try assumption; apply Htrigger.
Defined.

(** C10 on the demo workflow: two nodes are named [Twin]; the name is bound
    to the identifier of the second one, the fifth drawn. *)
Lemma C10_witness :
  let r := @convertN8NToSim Examples.demo Examples.demo_workflow in
  let m := @nodeIdMapOf Examples.demo Examples.demo_workflow in
  size (result_blocks r) = 6 - 1
  /\ m !! "Twin" = Some (Examples.tally 4)
  /\ Forall2 (fun e l =>
                (link_source l = "Twin" -> edge_source e = Examples.tally 4)
                /\ (conn_node (link_connection l) = "Twin" ->
                    edge_target e = Examples.tally 4))
             (result_edges r)
             (resolved_links m (wf_connections Examples.demo_workflow)).
Proof.
  intros r m.
  destruct (@C10_duplicate_names Examples.demo Examples.demo_workflow
              (firstn 5 (wf_nodes Examples.demo_workflow)) []
              (Examples.node "Twin" "n8n-nodes-base.code" [("jsCode", JStr "return 2")])
              tally_inj eq_refl ltac:(discriminate) (Forall_nil_2 _))
    as (Hsize & _ & Hbound & _ & Hedges).
  repeat split; assumption.
Defined.

(** * Further properties of the code *)

(** ** Every block of the result *)

Section Blocks.
Context `{Platform}.

(** Every block in the map of step 1 was built for a node other than a note,
    and sits under the identifier drawn for that node. *)
Lemma convertNodes_block_inv (nodes : list N8NNode) (id : string) (b : SimBlock) :
  st_blocks (convertNodes initial nodes 0) !! id = Some b ->
  exists before node after,
    nodes = before ++ node :: after
    /\ is_sticky node = false
    /\ id = uuidv4 (length (retained before))
    /\ b = simBlockOf id node (length before).
Proof.
  revert id b. induction nodes as [|x l IH] using rev_ind; intros id b.
  - simpl. now rewrite lookup_empty.
  - rewrite convertNodes_app. simpl.
    destruct (is_sticky x) eqn:Hx.
    + rewrite convertNode_sticky by exact Hx. intros Hb.
      destruct (IH id b Hb) as (before & node & after & -> & Hrest).
      exists before, node, (after ++ [x]). split; [| exact Hrest].
      now rewrite <- app_assoc.
    + rewrite convertNode_retained by exact Hx. simpl.
      rewrite convertNodes_uuids. simpl.
      destruct (decide (uuidv4 (length (retained l)) = id)) as [<- | Hne].
      * rewrite lookup_insert_eq. intros [= <-].
        exists l, x, []. auto.
      * rewrite lookup_insert_ne by exact Hne. intros Hb.
        destruct (IH id b Hb) as (before & node & after & -> & Hrest).
        exists before, node, (after ++ [x]). split; [| exact Hrest].
        now rewrite <- app_assoc.
Qed.

Lemma result_block_inv (n8nWorkflow : N8NWorkflow) (id : string) (b : SimBlock) :
  result_blocks (convertN8NToSim n8nWorkflow) !! id = Some b ->
  exists before node after,
    wf_nodes n8nWorkflow = before ++ node :: after
    /\ is_sticky node = false
    /\ id = uuidv4 (length (retained before))
    /\ b = simBlockOf id node (length before).
Proof.
  destruct (convertN8NToSim_result n8nWorkflow) as (_ & _ & -> & _).
  apply convertNodes_block_inv.
Qed.

Lemma simBlockOf_constants (blockId : string) (node : N8NNode) (index : nat) :
  let b := simBlockOf blockId node index in
  block_enabled b = true
  /\ block_horizontalHandles b = true
  /\ block_advancedMode b = false
  /\ block_data b = ∅
  /\ measuredWidth (block_layout b) = 250%Z
  /\ measuredHeight (block_layout b) = block_height b
  /\ block_outputs b = generateOutputsForBlockType (block_type b).
Proof.
  unfold simBlockOf.
  now destruct (resolveBlockType node) as [[simType height] pushed].
Qed.

(** X1. Every block of the result was built for a node of the workflow that
    is not a note: it is stored under the identifier drawn for that node,
    carries that identifier, and has the name and the position of the node. *)
Theorem blocks_come_from_nodes (n8nWorkflow : N8NWorkflow) :
  map_Forall
    (fun id b =>
       exists before node after,
         wf_nodes n8nWorkflow = before ++ node :: after
         /\ node_type node <> STICKY_NOTE
         /\ id = uuidv4 (length (retained before))
         /\ block_id b = id
         /\ block_name b = node_name node
         /\ pos_x (block_position b) = fst (node_position node)
         /\ pos_y (block_position b) = snd (node_position node))
    (result_blocks (convertN8NToSim n8nWorkflow)).
Proof.
  intros id b Hb.
  destruct (result_block_inv _ _ _ Hb) as (before & node & after & Hnodes & Hkeep & Hid & ->).
  destruct (simBlockOf_fields id node (length before)) as (? & ? & Hposition & _).
  exists before, node, after. rewrite Hposition.
  repeat split; trivial. now apply is_sticky_false.
Qed.

(** X2. Every block of the result has a type that passes the existence
    check, or is a [function] block of height 143; no other type of block is
    ever emitted. *)
Theorem blocks_have_available_types (n8nWorkflow : N8NWorkflow) :
  map_Forall
    (fun id b =>
       isValidBlockType (block_type b) = true
       \/ (block_type b = "function" /\ block_height b = 143%Z))
    (result_blocks (convertN8NToSim n8nWorkflow)).
Proof.
  intros id b Hb.
  destruct (result_block_inv _ _ _ Hb) as (before & node & after & _ & _ & _ & ->).
  destruct (simBlockOf_fields id node (length before)) as (_ & _ & _ & -> & -> & _).
  destruct (isValidBlockType (getSimBlockType (node_type node)).1) eqn:Hvalid.
  - left. now rewrite resolveBlockType_available.
  - right. now rewrite resolveBlockType_unavailable.
Qed.

(** X3. Every block of the result is enabled, has horizontal handles, is not
    in advanced mode, has empty data, and has a layout of width 250 whose
    height is the height of the block. *)
Theorem blocks_have_fixed_layout (n8nWorkflow : N8NWorkflow) :
  map_Forall
    (fun id b =>
       block_enabled b = true
       /\ block_horizontalHandles b = true
       /\ block_advancedMode b = false
       /\ block_data b = ∅
       /\ measuredWidth (block_layout b) = 250%Z
       /\ measuredHeight (block_layout b) = block_height b)
    (result_blocks (convertN8NToSim n8nWorkflow)).
Proof.
  intros id b Hb.
  destruct (result_block_inv _ _ _ Hb) as (before & node & after & _ & _ & _ & ->).
  destruct (simBlockOf_constants id node (length before)) as (? & ? & ? & ? & ? & ? & _).
  auto 10.
Qed.

Lemma declare_lookup_inv {B} (g : SubBlockConfig -> B) (defs : list SubBlockConfig)
    (key : string) (x : B) :
  declare g ∅ defs !! key = Some x ->
  exists def, def ∈ defs /\ def_id def = key /\ x = g def.
Proof.
  induction defs as [|d defs IH] using rev_ind.
  - unfold declare. simpl. now rewrite lookup_empty.
  - rewrite declare_snoc, lookup_assign.
    assert (Hearlier : declare g ∅ defs !! key = Some x ->
                       exists def, def ∈ defs ++ [d] /\ def_id def = key /\ x = g def).
    { intros Hx. destruct (IH Hx) as (def & Hin & Hrest).
      exists def. split; [apply elem_of_app; now left | exact Hrest]. }
    destruct (String.eqb (def_id d) "__proto__"); [exact Hearlier |].
    destruct (decide (def_id d = key)) as [<- | Hne].
    + rewrite lookup_insert_eq. intros [= <-].
      exists d. split; [apply elem_of_app; right; now apply list_elem_of_singleton | auto].
    + now rewrite lookup_insert_ne by exact Hne.
Qed.

(** Every slot of either branch sits under its own identifier and has a
    defined value. *)
Lemma convertParametersToSubBlocks_slots (node : N8NNode) (simType : string) :
  map_Forall (fun key sb => sb_id sb = key /\ is_Some (sb_value sb))
             (convertParametersToSubBlocks node simType).
Proof.
  intros key sb. unfold convertParametersToSubBlocks.
  destruct (getBlock simType ≫= cfg_subBlocks) as [defs|].
  - intros Hsb. apply declare_lookup_inv in Hsb as (def & _ & <- & ->).
    split; [reflexivity | apply subBlockValue_defined].
  - rewrite lookup_assign_entries.
    destruct (String.eqb key "__proto__"); [discriminate |].
    destruct (node_parameters node !! key) as [value|]; [| discriminate].
    intros [= <-]. simpl. eauto.
Qed.

(** X4. In every block of the result, whichever way its sub-blocks were
    made, every sub-block is stored under its own identifier and has a
    defined value (possibly [null], never [undefined]). *)
Theorem sub_blocks_are_keyed_by_id (n8nWorkflow : N8NWorkflow) :
  map_Forall
    (fun id b =>
       map_Forall (fun key sb => sb_id sb = key /\ is_Some (sb_value sb))
                  (block_subBlocks b))
    (result_blocks (convertN8NToSim n8nWorkflow)).
Proof.
  intros id b Hb.
  destruct (result_block_inv _ _ _ Hb) as (before & node & after & _ & _ & _ & ->).
  rewrite simBlockOf_subBlocks. apply convertParametersToSubBlocks_slots.
Qed.

Lemma append_nonempty (a b : string) : b <> EmptyString -> a +:+ b <> EmptyString.
Proof. destruct a; simpl; [auto | discriminate]. Qed.

Lemma outputOfDef_port (key : string) (outputDef : OutputDef) :
  port_type (outputOfDef key outputDef) = declared_type outputDef
  /\ port_description (outputOfDef key outputDef) <> EmptyString.
Proof.
  destruct outputDef as [t | t [d|]]; simpl; split; trivial;
    try (apply append_nonempty; discriminate).
  destruct (String.eqb_spec d EmptyString); [| assumption].
  apply append_nonempty. discriminate.
Qed.

(** X5. The outputs of every block of the result follow the catalogue: when
    the type of the block declares no outputs (no definition, or one without
    an [outputs] field), the block has the single port [result] of type
    [any]; otherwise it has one port for each declared output and no other,
    each of the declared type and with a description that is never empty. *)
Theorem blocks_have_declared_outputs (n8nWorkflow : N8NWorkflow) :
  map_Forall
    (fun id b =>
       match getBlock (block_type b) ≫= cfg_outputs with
       | None => block_outputs b = {[ "result" := result_port ]}
       | Some declared =>
           dom (block_outputs b) = dom declared
           /\ map_Forall
                (fun port p =>
                   port_description p <> EmptyString
                   /\ exists outputDef, declared !! port = Some outputDef
                                        /\ port_type p = declared_type outputDef)
                (block_outputs b)
       end)
    (result_blocks (convertN8NToSim n8nWorkflow)).
Proof.
  intros id b Hb.
  destruct (result_block_inv _ _ _ Hb) as (before & node & after & _ & _ & _ & ->).
  destruct (simBlockOf_constants id node (length before)) as (_ & _ & _ & _ & _ & _ & ->).
  unfold generateOutputsForBlockType.
  destruct (getBlock _ ≫= cfg_outputs) as [declared|]; [| reflexivity].
  split; [apply dom_map_entries |].
  intros port p. rewrite lookup_map_entries.
  destruct (declared !! port) as [outputDef|]; [| discriminate].
  intros [= <-]. destruct (outputOfDef_port port outputDef) as [Htype Hdescription].
  split; [exact Hdescription | eauto].
Qed.

(** X6. When the list of nodes starts with a note, no block is a trigger on
    account of its position: the trigger flag of every block is set exactly
    when the type of its node is a known trigger type or ends with
    [Trigger]. *)
Theorem note_first_no_positional_trigger (n8nWorkflow : N8NWorkflow)
    (note : N8NNode) (rest : list N8NNode) :
  wf_nodes n8nWorkflow = note :: rest ->
  node_type note = STICKY_NOTE ->
  map_Forall
    (fun id b =>
       exists node,
         node ∈ rest
         /\ block_name b = node_name node
         /\ (block_triggerMode b = true
             <-> In (node_type node) triggerTypes
                 \/ exists p, node_type node = p +:+ "Trigger"))
    (result_blocks (convertN8NToSim n8nWorkflow)).
Proof.
  intros Hnodes Hnote id b Hb.
  destruct (result_block_inv _ _ _ Hb) as (before & node & after & Hsplit & Hkeep & _ & ->).
  destruct (simBlockOf_fields id node (length before)) as (_ & Hname & _ & _ & _ & Htrigger).
  rewrite Hnodes in Hsplit.
  destruct before as [|first before].
  - simpl in Hsplit. injection Hsplit as <- _.
    apply is_sticky_true in Hnote. congruence.
  - simpl in Hsplit. injection Hsplit as _ ->.
    exists node. split; [apply elem_of_app; right; apply elem_of_cons; now left |].
    split; [exact Hname |].
    rewrite Htrigger, isTriggerNode_spec. simpl. intuition discriminate.
Qed.

End Blocks.

(** ** The identifiers of the edges *)

Section EdgeIdentifiers.
Context `{Platform}.

Lemma step2_ids_refl (st : ConvState) : step2_ids st st.
Proof. exists []. simpl. rewrite app_nil_r, Nat.add_0_r. auto. Qed.

Lemma step2_ids_trans (st1 st2 st3 : ConvState) :
  step2_ids st1 st2 -> step2_ids st2 st3 -> step2_ids st1 st3.
Proof.
  intros (new1 & He1 & Hi1 & Hu1) (new2 & He2 & Hi2 & Hu2).
  exists (new1 ++ new2). rewrite length_app. repeat split.
  - now rewrite He2, He1, <- app_assoc.
  - rewrite fmap_app, Hi1, Hi2, Hu1, seq_app, fmap_app. reflexivity.
  - lia.
Qed.

Lemma push_warning_ids (st : ConvState) (w : string) :
  step2_ids st (push_warning st w).
Proof. exists []. simpl. rewrite app_nil_r, Nat.add_0_r. auto. Qed.

Lemma convertConnection_ids (sourceId : string) (outputIndex : nat)
    (st st' : ConvState) (c : N8NConnection) :
  convertConnection sourceId outputIndex st c = Returns st' -> step2_ids st st'.
Proof.
  unfold convertConnection.
  destruct (resolve (st_nodeIdMap st) (conn_node c)) as [targetId|].
  - destruct (st_blocks st !! sourceId) as [b|]; [| discriminate].
    intros [= <-]. eexists [_]. simpl. repeat split. lia.
  - intros [= <-]. apply push_warning_ids.
Qed.

Lemma convertGroup_ids (sourceId : string) (outputIndex : nat)
    (st st' : ConvState) (group : list N8NConnection) :
  convertGroup sourceId outputIndex st group = Returns st' -> step2_ids st st'.
Proof.
  revert st. induction group as [|c group IH]; intros st; simpl.
  - intros [= <-]. apply step2_ids_refl.
  - destruct (convertConnection sourceId outputIndex st c) as [st1|] eqn:Hrun;
      [| discriminate]. simpl. intros Hrest.
    apply (step2_ids_trans st st1 st');
      [eapply convertConnection_ids; exact Hrun | now apply IH].
Qed.

Lemma convertGroups_ids (sourceId : string) (st st' : ConvState)
    (groups : list (list N8NConnection)) (outputIndex : nat) :
  convertGroups sourceId st groups outputIndex = Returns st' -> step2_ids st st'.
Proof.
  revert st outputIndex. induction groups as [|group groups IH]; intros st outputIndex; simpl.
  - intros [= <-]. apply step2_ids_refl.
  - destruct (convertGroup sourceId outputIndex st group) as [st1|] eqn:Hrun;
      [| discriminate]. simpl. intros Hrest.
    apply (step2_ids_trans st st1 st');
      [eapply convertGroup_ids; exact Hrun | eapply IH; exact Hrest].
Qed.

Lemma convertEntry_ids (st st' : ConvState) (entry : string * N8NConnectionData) :
  convertEntry st entry = Returns st' -> step2_ids st st'.
Proof.
  destruct entry as [sourceName connectionData]. unfold convertEntry.
  destruct (resolve (st_nodeIdMap st) sourceName) as [sourceId|].
  - apply convertGroups_ids.
  - intros [= <-]. apply push_warning_ids.
Qed.

Lemma convertConnections_ids (st st' : ConvState)
    (entries : list (string * N8NConnectionData)) :
  convertConnections st entries = Returns st' -> step2_ids st st'.
Proof.
  revert st. induction entries as [|entry entries IH]; intros st; simpl.
  - intros [= <-]. apply step2_ids_refl.
  - destruct (convertEntry st entry) as [st1|] eqn:Hrun; [| discriminate].
    simpl. intros Hrest.
    apply (step2_ids_trans st st1 st');
      [eapply convertEntry_ids; exact Hrun | now apply IH].
Qed.

(** The edges of the result carry, in order, the identifiers drawn after
    those of the blocks. *)
Lemma result_edge_ids (n8nWorkflow : N8NWorkflow) :
  let r := convertN8NToSim n8nWorkflow in
  edge_id <$> result_edges r
  = uuidv4 <$> seq (length (retained (wf_nodes n8nWorkflow)))
                   (length (result_edges r)).
Proof.
  intros r. subst r.
  destruct (convertSteps_post n8nWorkflow) as (st & Hrun & _).
  pose proof Hrun as Hids. apply convertConnections_ids in Hids.
  destruct Hids as (new & He & Hi & _).
  rewrite convertNodes_edges, convertNodes_uuids in *. simpl in *.
  unfold convertN8NToSim. rewrite Hrun. unfold result_edges. simpl.
  now rewrite He.
Qed.

Lemma retained_app (l1 l2 : list N8NNode) :
  retained (l1 ++ l2) = retained l1 ++ retained l2.
Proof. unfold retained. apply List.filter_app. Qed.

(** X7. When the generator never repeats an identifier: the edges of the
    result carry, in order, the identifiers drawn right after those of the
    blocks; so no two edges share an identifier, and no edge has the
    identifier of a block. *)
Theorem edge_ids_are_fresh (n8nWorkflow : N8NWorkflow) :
  (forall i j, uuidv4 i = uuidv4 j -> i = j) ->
  let r := convertN8NToSim n8nWorkflow in
  edge_id <$> result_edges r
  = uuidv4 <$> seq (length (retained (wf_nodes n8nWorkflow)))
                   (length (result_edges r))
  /\ NoDup (edge_id <$> result_edges r)
  /\ Forall (fun e => result_blocks r !! edge_id e = None) (result_edges r).
Proof.
  intros Hinj r. subst r.
  pose proof (result_edge_ids n8nWorkflow) as Hids. simpl in Hids.
  split; [exact Hids |]. split.
  - rewrite Hids. apply NoDup_fmap_2_strong; [| apply NoDup_seq].
    intros i j _ _. apply Hinj.
  - apply Forall_fmap with (f := edge_id)
                           (P := fun id => result_blocks _ !! id = None).
    rewrite Hids. apply Forall_fmap, Forall_forall. intros k Hk. simpl.
    apply elem_of_seq in Hk. apply eq_None_not_Some. intros [b Hb].
    destruct (result_block_inv _ _ _ Hb) as (before & node & after & Hnodes & Hkeep & Hid & _).
    apply Hinj in Hid. rewrite Hnodes, retained_app in Hk.
    change (node :: after) with ([node] ++ after) in Hk.
    rewrite retained_app, !length_app in Hk.
    unfold retained at 2 in Hk. simpl in Hk. rewrite Hkeep in Hk. simpl in Hk. lia.
Qed.

End EdgeIdentifiers.

(** ** Every connection entry is accounted for *)

Section Accounting.
Context `{Platform}.

Lemma group_accounting (nodeIdMap : gmap string string) (sourceName : string)
    (outputIndex : nat) (group : list N8NConnection) :
  resolves nodeIdMap sourceName = true ->
  length (List.filter (link_resolved nodeIdMap)
                      (List.map (link_of sourceName outputIndex) group))
  + length (List.flat_map (target_warnings nodeIdMap) group)
  = length group.
Proof.
  intros Hsource. induction group as [|c group IH]; simpl; [reflexivity |].
  rewrite length_app.
  unfold link_resolved at 1, target_warnings at 1, resolves at 2. simpl.
  rewrite Hsource. simpl.
  destruct (resolve nodeIdMap (conn_node c)); simpl; lia.
Qed.

Lemma branch_accounting (nodeIdMap : gmap string string) (sourceName : string)
    (outputIndex : nat) (groups : list (list N8NConnection)) :
  resolves nodeIdMap sourceName = true ->
  length (List.filter (link_resolved nodeIdMap)
                      (branch_links sourceName outputIndex groups))
  + length (List.flat_map (List.flat_map (target_warnings nodeIdMap)) groups)
  = length (branch_links sourceName outputIndex groups).
Proof.
  intros Hsource. revert outputIndex.
  induction groups as [|group groups IH]; intros outputIndex; simpl; [reflexivity |].
  rewrite List.filter_app, !length_app, List.length_map.
  pose proof (group_accounting nodeIdMap sourceName outputIndex group Hsource).
  pose proof (IH (S outputIndex)). lia.
Qed.

Lemma links_accounting (nodeIdMap : gmap string string)
    (entries : list (string * N8NConnectionData)) :
  let skipped := List.filter (fun entry => negb (resolves nodeIdMap (fst entry)))
                             entries in
  length (resolved_links nodeIdMap entries)
  + length (connection_warnings nodeIdMap entries)
  + length (all_links skipped)
  = length (all_links entries) + length skipped.
Proof.
  unfold resolved_links, connection_warnings, all_links.
  induction entries as [|[sourceName connectionData] entries IH]; simpl; [reflexivity |].
  simpl in IH. rewrite List.filter_app, !length_app.
  unfold entry_warnings at 1. simpl.
  destruct (resolves nodeIdMap sourceName) eqn:Hsource; simpl.
  - pose proof (branch_accounting nodeIdMap sourceName 0
                  (default [] (main connectionData)) Hsource) as Hbranch.
    unfold resolves in Hsource.
    destruct (resolve nodeIdMap sourceName); [| discriminate]. lia.
  - unfold resolves in Hsource.
    destruct (resolve nodeIdMap sourceName) eqn:Hresolve; [discriminate |].
    rewrite filter_unresolved_source by exact Hresolve.
    rewrite length_app. simpl. lia.
Qed.

(** X8. No connection entry is lost without a trace. Count as skipped the
    groups whose source name does not resolve. Then the edges, the warnings
    of the result and the entries of the skipped groups add up to all the
    connection entries, one warning for each skipped group, and the warnings
    of step 1: every entry of a group that is not skipped gives one edge or
    one warning, and every skipped group gives one warning. *)
Theorem connection_entries_accounted (n8nWorkflow : N8NWorkflow) :
  let r := convertN8NToSim n8nWorkflow in
  let entries := wf_connections n8nWorkflow in
  let skipped :=
    List.filter (fun entry => negb (resolves (nodeIdMapOf n8nWorkflow) (fst entry)))
                entries in
  length (result_edges r) + length (result_warnings r) + length (all_links skipped)
  = length (all_links entries) + length skipped
    + length (node_warnings (wf_nodes n8nWorkflow)).
Proof.
  intros r entries skipped. subst r entries skipped.
  destruct (convertN8NToSim_result n8nWorkflow) as (_ & _ & _ & -> & Hedges).
  apply Forall2_length in Hedges. rewrite Hedges, length_app.
  pose proof (links_accounting (nodeIdMapOf n8nWorkflow)
                               (wf_connections n8nWorkflow)) as Hsum.
  simpl in Hsum. lia.
Qed.

(** X9. The blocks depend on the nodes alone: the result has the blocks that
    the same workflow without its connections gives. Without connections
    there is no edge, and the warnings are those of step 1, which in any
    result come before all others. *)
Theorem blocks_ignore_connections (n8nWorkflow : N8NWorkflow) :
  let r := convertN8NToSim n8nWorkflow in
  let r0 := convertN8NToSim {| wf_name := wf_name n8nWorkflow;
                               wf_nodes := wf_nodes n8nWorkflow;
                               wf_connections := [] |} in
  result_blocks r = result_blocks r0
  /\ result_edges r0 = []
  /\ result_warnings r0 = node_warnings (wf_nodes n8nWorkflow)
  /\ result_warnings r0 `prefix_of` result_warnings r.
Proof.
  intros r r0. subst r r0.
  destruct (convertN8NToSim_result n8nWorkflow) as (_ & _ & -> & -> & _).
  destruct (convertN8NToSim_result {| wf_name := wf_name n8nWorkflow;
                                      wf_nodes := wf_nodes n8nWorkflow;
                                      wf_connections := [] |})
    as (_ & _ & -> & -> & Hedges).
  simpl in *. apply Forall2_nil_inv_r in Hedges.
  rewrite app_nil_r. repeat split; trivial.
  now apply prefix_app_r.
Qed.

(** X10. When every node is a note (in particular when there is no node):
    the result has no block and no edge, and its warnings are one source
    warning for each connection group, in order. *)
Theorem only_notes_no_blocks (n8nWorkflow : N8NWorkflow) :
  Forall (fun node => node_type node = STICKY_NOTE) (wf_nodes n8nWorkflow) ->
  let r := convertN8NToSim n8nWorkflow in
  success r = true
  /\ result_blocks r = ∅
  /\ result_edges r = []
  /\ result_warnings r
     = List.map (fun entry => source_warning (fst entry))
                (wf_connections n8nWorkflow).
Proof.
  intros Hnotes r. subst r.
  assert (Hunbound : forall name, resolve (nodeIdMapOf n8nWorkflow) name = None).
  { intros name. apply resolve_None_lookup. apply convertNodes_idmap_None.
    eapply Forall_impl; [exact Hnotes |]. simpl. intros node Hnode Hkeep.
    apply is_sticky_true in Hnode. congruence. }
  assert (Hwarnings : node_warnings (wf_nodes n8nWorkflow) = []).
  { unfold node_warnings. induction Hnotes as [|node l Hnode _ IH]; simpl; [reflexivity |].
    apply is_sticky_true in Hnode. now rewrite Hnode. }
  assert (Hlinks : resolved_links (nodeIdMapOf n8nWorkflow)
                                  (wf_connections n8nWorkflow) = []).
  { unfold resolved_links, all_links.
    induction (wf_connections n8nWorkflow) as [|entry entries IH]; simpl; [reflexivity |].
    rewrite List.filter_app, IH, app_nil_r.
    apply filter_unresolved_source, Hunbound. }
  destruct (convertN8NToSim_result n8nWorkflow) as (Hok & _ & Hblocks & -> & Hedges).
  rewrite Hlinks in Hedges. apply Forall2_nil_inv_r in Hedges.
  rewrite Hwarnings. simpl. repeat split; trivial.
  - apply map_empty. intros id. apply eq_None_not_Some. intros [b Hb].
    destruct (result_block_inv _ _ _ Hb) as (before & node & after & Hnodes & Hkeep & _).
    rewrite Hnodes in Hnotes. apply Forall_app in Hnotes as [_ Hnotes].
    inversion Hnotes as [|? ? Hnode _]; subst.
    apply is_sticky_true in Hnode. congruence.
  - unfold connection_warnings. clear Hlinks.
    induction (wf_connections n8nWorkflow) as [|entry entries IH]; simpl; [reflexivity |].
    unfold entry_warnings at 1. rewrite Hunbound. simpl. now rewrite IH.
Qed.

(** X11. The [warnings] field of a result is absent exactly when no warning
    was pushed; when it is present it is never an empty list, and it is the
    list of all warnings: those of step 1, node after node, followed by those
    of step 2, group after group. *)
Theorem warnings_absent_or_nonempty (n8nWorkflow : N8NWorkflow) :
  let r := convertN8NToSim n8nWorkflow in
  (warnings r = None
   <-> node_warnings (wf_nodes n8nWorkflow) = []
       /\ connection_warnings (nodeIdMapOf n8nWorkflow)
                              (wf_connections n8nWorkflow) = [])
  /\ match warnings r with
     | Some pushed =>
         pushed <> []
         /\ pushed = node_warnings (wf_nodes n8nWorkflow)
                     ++ connection_warnings (nodeIdMapOf n8nWorkflow)
                                            (wf_connections n8nWorkflow)
     | None => True
     end.
Proof.
  intros r. subst r.
  destruct (convertN8NToSim_result n8nWorkflow) as (_ & _ & _ & Hwarnings & _).
  destruct (convertSteps_post n8nWorkflow) as (st & Hrun & _).
  unfold result_warnings, convertN8NToSim in *. rewrite Hrun in *. simpl in *.
  destruct (st_warnings st) as [|w ws] eqn:Hst; simpl in *.
  - symmetry in Hwarnings. apply app_eq_nil in Hwarnings. tauto.
  - split; [| split; [discriminate | exact Hwarnings]].
    split; [discriminate |]. intros [Hn Hc]. rewrite Hn, Hc in Hwarnings.
    discriminate.
Qed.

(** X12. A conversion always returns a workflow and no error. The workflow
    has the version [1.0], the two time stamps of the clock in the order
    they are read, no loop, no parallel and no variable; its name is the name
    of the source workflow when that is present and not empty, and
    [Migrated from n8n] otherwise. *)
Theorem result_is_assembled (n8nWorkflow : N8NWorkflow) :
  exists w,
    workflow (convertN8NToSim n8nWorkflow) = Some w
    /\ error (convertN8NToSim n8nWorkflow) = None
    /\ version w = "1.0"
    /\ exportedAt w = Date_toISOString 0
    /\ meta_exportedAt (state_metadata (state w)) = Date_toISOString 1
    /\ state_loops (state w) = ∅
    /\ state_parallels (state w) = ∅
    /\ state_variables (state w) = []
    /\ (forall name, wf_name n8nWorkflow = Some name -> name <> EmptyString ->
                     meta_name (state_metadata (state w)) = name)
    /\ (wf_name n8nWorkflow = None \/ wf_name n8nWorkflow = Some EmptyString ->
        meta_name (state_metadata (state w)) = "Migrated from n8n").
Proof.
  destruct (convertSteps_post n8nWorkflow) as (st & Hrun & _).
  unfold convertN8NToSim. rewrite Hrun. eexists. split; [reflexivity |]. simpl.
  repeat split.
  - intros name -> Hname. now destruct (String.eqb_spec name EmptyString).
  - intros [-> | ->]; reflexivity.
Qed.

End Accounting.

(** ** The structural check: when it throws, and what its message names *)

Lemma validateNode_throws (node : JValue) (msg : string) :
  validateNode node = Throws msg
  <-> node = JNull /\ msg = "Cannot read properties of null (reading 'name')".
Proof.
  split.
  - destruct node as [| b | n | s | items | fields];
      [vm_compute; intros [= <-]; auto | ..];
      match goal with
      | |- validateNode ?x = _ -> _ =>
          intros Hrun;
          destruct (validateNode_returns x) as (failure & Hret & _);
          [discriminate | rewrite Hret in Hrun; discriminate]
      end.
  - intros [-> ->]. reflexivity.
Qed.

Lemma validateNodes_throws (items : list JValue) (msg : string) :
  validateNodes items = Throws msg
  <-> msg = "Cannot read properties of null (reading 'name')"
      /\ exists good rest, items = good ++ JNull :: rest /\ Forall node_shape good.
Proof.
  induction items as [|node items IH]; simpl.
  - split; [discriminate |]. intros (_ & [|? ?] & rest & [=] & _).
  - destruct (validateNode node) as [failure|thrown] eqn:Hnode; simpl.
    + assert (Hnot_null : node <> JNull).
      { intros ->. vm_compute in Hnode. discriminate. }
      destruct (validateNode_returns node Hnot_null) as (failure' & Hret & Hshape).
      rewrite Hnode in Hret. injection Hret as <-.
      destruct failure as [why|].
      * split; [discriminate |].
        intros (_ & [|first good] & rest & [= Hfirst Hrest] & Hgood);
          [congruence |].
        subst. inversion Hgood as [|? ? Hs _]; subst.
        apply Hshape in Hs. discriminate.
      * rewrite IH. split.
        -- intros (-> & good & rest & -> & Hgood). split; [reflexivity |].
           exists (node :: good), rest. split; [reflexivity |].
           constructor; [now apply Hshape | exact Hgood].
        -- intros (-> & [|first good] & rest & [= Hfirst Hrest] & Hgood);
             [congruence |].
           subst. split; [reflexivity |]. exists good, rest.
           split; [reflexivity |]. now inversion Hgood.
    + apply validateNode_throws in Hnode as [-> ->]. split.
      * intros [= <-]. split; [reflexivity |]. exists [], items. auto.
      * intros (-> & _). reflexivity.
Qed.

(** X13. The check throws in one situation only: the top-level value is an
    object whose [nodes] is an array and whose [connections] is an object or
    an array, and the first node that is not well-formed is [null]. The
    error is then the [TypeError] of reading [name] of [null]. In every other
    situation it returns a verdict. *)
Theorem validate_throws_only_on_null_node (data : JValue) (msg : string) :
  validateN8NWorkflow data = Throws msg
  <-> msg = "Cannot read properties of null (reading 'name')"
      /\ exists fields good rest connections,
           data = JObj fields
           /\ field fields "nodes" = Some (JArr (good ++ JNull :: rest))
           /\ field fields "connections" = Some connections
           /\ object_like connections
           /\ Forall node_shape good.
Proof.
  unfold validateN8NWorkflow.
  destruct data as [| b | n | s | items | fields];
    try (simpl; try destruct b; try destruct (n =? 0)%Z;
         try destruct (String.eqb s EmptyString); simpl;
         (split; [discriminate | intros (_ & ? & ? & ? & ? & [=] & _)])).
  simpl. fold (field fields "nodes") (field fields "connections").
  destruct (field fields "nodes") as [[| | | |items|]|] eqn:Hitems;
    try (split; [discriminate |];
         intros (_ & f & good & rest & c & [= <-] & Hi & _); congruence).
  destruct items as [|node items]; simpl.
  { split; [discriminate |].
    intros (_ & f & [|? ?] & rest & c & [= <-] & Hi & _); simpl in *; congruence. }
  destruct (field fields "connections") as [[| | | |citems|cfields]|] eqn:Hconnections;
    simpl;
    try (try destruct b; try destruct (n =? 0)%Z;
         try destruct (String.eqb s EmptyString); simpl;
         (split; [discriminate |]);
         intros (_ & f & good & rest & c & [= <-] & _ & Hc & [[? ->] | [? ->]] & _);
         congruence).
  - pose proof (validateNodes_throws (node :: items) msg) as Hnodes.
    simpl in Hnodes. rewrite Hnodes. split.
    + intros (-> & good & rest & Hsplit & Hgood). split; [reflexivity |].
      exists fields, good, rest, (JArr citems). rewrite <- Hsplit.
      repeat split; trivial. left. eauto.
    + intros (-> & f & good & rest & c & [= <-] & Hi & _ & _ & Hgood).
      split; [reflexivity |]. exists good, rest. split; [congruence | exact Hgood].
  - pose proof (validateNodes_throws (node :: items) msg) as Hnodes.
    simpl in Hnodes. rewrite Hnodes. split.
    + intros (-> & good & rest & Hsplit & Hgood). split; [reflexivity |].
      exists fields, good, rest, (JObj cfields). rewrite <- Hsplit.
      repeat split; trivial. right. eauto.
    + intros (-> & f & good & rest & c & [= <-] & Hi & _ & _ & Hgood).
      split; [reflexivity |]. exists good, rest. split; [congruence | exact Hgood].
Qed.

Lemma validate_top_level_passes (fields : list (string * JValue))
    (items : list JValue) (connections : JValue) :
  field fields "nodes" = Some (JArr items) ->
  items <> [] ->
  field fields "connections" = Some connections ->
  object_like connections ->
  validateN8NWorkflow (JObj fields) = validateNodes items.
Proof.
  intros Hitems Hne Hconnections Hobject. unfold validateN8NWorkflow. simpl.
  fold (field fields "nodes") (field fields "connections").
  rewrite Hitems, Hconnections. destruct items as [|node items]; [contradiction |].
  now destruct Hobject as [[? ->] | [? ->]].
Qed.

Lemma validateNodes_first_failure (good rest : list JValue) (node : JValue)
    (msg : string) :
  Forall node_shape good ->
  validateNode node = Returns (Some msg) ->
  validateNodes (good ++ node :: rest) = invalid msg.
Proof.
  intros Hgood Hnode. induction Hgood as [|first good Hfirst _ IH]; simpl.
  - now rewrite Hnode.
  - destruct (validateNode_returns first) as (failure & -> & Hshape).
    { destruct Hfirst as (? & ? & ? & -> & _). discriminate. }
    apply Hshape in Hfirst. subst failure. exact IH.
Qed.

Lemma validateNode_named (fields : list (string * JValue)) (name : string) :
  field fields "name" = Some (JStr name) ->
  name <> EmptyString ->
  ~ node_shape (JObj fields) ->
  exists msg, validateNode (JObj fields) = Returns (Some msg) /\ mentions msg name.
Proof.
  intros Hname Hnonempty Hshape.
  destruct (validateNode_returns (JObj fields)) as (failure & Hrun & Hiff);
    [discriminate |].
  destruct failure as [msg|]; [| now destruct Hshape; apply Hiff].
  exists msg. split; [exact Hrun |].
  unfold validateNode in Hrun. cbn [bind property] in Hrun.
  fold (field fields "name") (field fields "type") (field fields "position") in Hrun.
  rewrite Hname in Hrun.
  assert (Hgood : not_a_string (Some (JStr name)) = false).
  { apply not_a_string_false. now exists name. }
  rewrite Hgood in Hrun. cbn [bind shown_string] in Hrun.
  destruct (not_a_string (field fields "type")).
  - injection Hrun as <-. eexists ("Invalid node " +:+ dq), _. reflexivity.
  - cbn [bind] in Hrun.
    destruct (field fields "position") as [[| | | |[|a [|b [|c l]]]|]|];
      first [ discriminate
            | injection Hrun as <-;
              eexists ("Invalid node " +:+ dq), _; reflexivity ].
Qed.

(** X14. The first node that is not well-formed decides the verdict, and the
    nodes after it are not looked at. When that node is an object with a
    non-empty string [name], the check returns an invalid verdict whose
    message contains that name. *)
Theorem validate_names_first_bad_node (fields nodeFields : list (string * JValue))
    (good rest : list JValue) (connections : JValue) (name : string) :
  field fields "nodes" = Some (JArr (good ++ JObj nodeFields :: rest)) ->
  field fields "connections" = Some connections ->
  object_like connections ->
  Forall node_shape good ->
  field nodeFields "name" = Some (JStr name) ->
  name <> EmptyString ->
  ~ node_shape (JObj nodeFields) ->
  exists msg,
    validateN8NWorkflow (JObj fields)
    = Returns {| valid := false; verdict_error := Some msg |}
    /\ mentions msg name.
Proof.
  intros Hitems Hconnections Hobject Hgood Hname Hnonempty Hshape.
  destruct (validateNode_named nodeFields name Hname Hnonempty Hshape)
    as (msg & Hnode & Hmentions).
  exists msg. split; [| exact Hmentions].
  rewrite (validate_top_level_passes fields _ connections Hitems); trivial.
  - now apply validateNodes_first_failure.
  - now destruct good.
Qed.

(** ** The type resolver beyond the table *)

Lemma is_upper_capital (c : ascii) : is_upper c = true <-> capital c.
Proof.
  unfold is_upper, capital. rewrite andb_true_iff, !Nat.leb_le. tauto.
Qed.

Lemma is_uppercase_spec (c : ascii) :
  is_uppercase c = true <-> capital c \/ accented_capital c.
Proof.
  unfold is_uppercase, accented_capital.
  rewrite orb_true_iff, !andb_true_iff, negb_true_iff, is_upper_capital,
    !Nat.leb_le, Nat.eqb_neq.
  tauto.
Qed.

Lemma lower_char_capital (c : ascii) :
  capital c \/ accented_capital c -> lower_char c = partner c.
Proof.
  intros Hc. apply is_uppercase_spec in Hc. unfold lower_char. now rewrite Hc.
Qed.

Lemma lower_char_other (c : ascii) :
  ~ capital c -> ~ accented_capital c -> lower_char c = c.
Proof.
  intros Hc Ha. unfold lower_char.
  destruct (is_uppercase c) eqn:Hu; [| reflexivity].
  apply is_uppercase_spec in Hu. tauto.
Qed.

Lemma lower_char_not_uppercase (c : ascii) : is_uppercase (lower_char c) = false.
Proof.
  destruct c as [[] [] [] [] [] [] [] []]; reflexivity.
Qed.

Lemma lower_char_dot (c : ascii) :
  Ascii.eqb (lower_char c) "." = Ascii.eqb c ".".
Proof.
  destruct c as [[] [] [] [] [] [] [] []]; reflexivity.
Qed.

Lemma toLowerCase_no_uppercase (s : string) : no_uppercase (toLowerCase s).
Proof.
  induction s as [|c s IH]; intros d; simpl; [contradiction |].
  intros [<- | Hd]; [| now apply IH].
  pose proof (lower_char_not_uppercase c) as Hc.
  split; intros Hup;
    (assert (Htrue : is_uppercase (lower_char c) = true)
       by (apply is_uppercase_spec; tauto));
    congruence.
Qed.

Lemma snake_case_dots (s : string) :
  contains_char "." (toLowerCase (replace_upper s)) = contains_char "." s.
Proof.
  induction s as [|c s IH]; simpl; [reflexivity |].
  destruct (is_upper c) eqn:Hc; simpl; rewrite lower_char_dot, IH; [| reflexivity].
  reflexivity.
Qed.

(** The replacement followed by the lowering follows the rule, character by
    character. *)
Lemma snake_rule_computed (s : string) :
  snake_rule s (toLowerCase (replace_upper s)).
Proof.
  induction s as [|c s IH]; simpl; [constructor |].
  destruct (is_upper c) eqn:Hc.
  - apply is_upper_capital in Hc.
    change (toLowerCase (String "_" (String c (replace_upper s))))
      with (String "_" (String (lower_char c) (toLowerCase (replace_upper s)))).
    rewrite lower_char_capital by tauto. now constructor.
  - assert (Hnot : ~ capital c).
    { intros Hup. apply is_upper_capital in Hup. congruence. }
    change (toLowerCase (String c (replace_upper s)))
      with (String (lower_char c) (toLowerCase (replace_upper s))).
    destruct (is_uppercase c) eqn:Hu.
    + apply is_uppercase_spec in Hu as [Hu | Hu]; [contradiction |].
      rewrite lower_char_capital by tauto. now constructor.
    + assert (Hplain : ~ accented_capital c).
      { intros Hup.
        assert (Htrue : is_uppercase c = true) by (apply is_uppercase_spec; tauto).
        congruence. }
      rewrite lower_char_other by assumption. now constructor.
Qed.

(** The rule leaves no choice. *)
Lemma snake_rule_functional (s t t' : string) :
  snake_rule s t -> snake_rule s t' -> t = t'.
Proof.
  intros Ht. revert t'.
  induction Ht as [| c r r' Hc _ IH | c r r' Hc _ IH | c r r' Hc Ha _ IH];
    intros t' Ht'; inversion Ht'; subst; try contradiction;
    try (f_equal; now apply IH); try (do 2 f_equal; now apply IH);
    try reflexivity;
    unfold capital, accented_capital in *; lia.
Qed.

Lemma snake_case_unchanged (s : string) :
  no_uppercase s -> toLowerCase (replace_upper s) = s.
Proof.
  induction s as [|c s IH]; simpl; [reflexivity |].
  intros Hs. destruct (Hs c (or_introl eq_refl)) as [Hc Ha].
  destruct (is_upper c) eqn:Hu; [now apply is_upper_capital in Hu |].
  simpl. rewrite lower_char_other by assumption.
  f_equal. apply IH. intros d Hd. apply Hs. now right.
Qed.

Lemma split_dot_plain (s : string) :
  contains_char "." s = false -> split_dot s = [s].
Proof.
  intros Hs. rewrite <- split_dot_length in Hs.
  pose proof (split_dot_nonempty s) as Hne.
  destruct (split_dot s) as [|q [|q' qs]] eqn:Hsplit; [contradiction | | discriminate].
  now destruct (split_dot_single s q Hsplit) as [-> _].
Qed.

Lemma contains_char_append (c : ascii) (a b : string) :
  contains_char c (a +:+ b) = contains_char c a || contains_char c b.
Proof.
  induction a as [|x a IH]; simpl; [reflexivity |].
  now rewrite IH, orb_assoc.
Qed.

(** The last part of a string is what follows a dot that no dot follows. *)
Lemma split_dot_last_segment (prefix segment : string) :
  contains_char "." segment = false ->
  List.last (split_dot (prefix +:+ "." +:+ segment)) EmptyString = segment.
Proof.
  intros Hsegment. induction prefix as [|c prefix IH].
  - simpl. rewrite (split_dot_plain segment Hsegment). reflexivity.
  - assert (Hdot : contains_char "." (prefix +:+ "." +:+ segment) = true).
    { rewrite contains_char_append. simpl. apply orb_true_r. }
    rewrite <- split_dot_length in Hdot.
    change (String c prefix +:+ "." +:+ segment)
      with (String c (prefix +:+ "." +:+ segment)).
    remember (prefix +:+ "." +:+ segment) as t eqn:Ht. clear Ht. simpl.
    destruct (Ascii.eqb c ".").
    + destruct (split_dot t) as [|q qs]; [discriminate |]. exact IH.
    + destruct (split_dot t) as [|q [|q' qs]]; [discriminate | discriminate |].
      exact IH.
Qed.

(** X15. For a type that is not in the table, only what follows the last dot
    counts, and the height is 230. The resolved type is the snake case of
    that segment, character by character: each capital [A] to [Z] becomes an
    underscore and its lowercase partner, each accented capital becomes its
    lowercase partner, and any other character stays; nothing else follows
    that rule. The resolved type has no uppercase letter and no dot, and it
    is the segment itself when the segment has no uppercase letter. *)
Theorem unlisted_type_resolves_by_last_segment (prefix segment : string) :
  find_mapping BLOCK_TYPE_MAPPINGS (prefix +:+ "." +:+ segment) = None ->
  contains_char "." segment = false ->
  let resolved := getSimBlockType (prefix +:+ "." +:+ segment) in
  resolved.2 = 230%Z
  /\ snake_rule segment resolved.1
  /\ (forall t, snake_rule segment t -> t = resolved.1)
  /\ no_uppercase resolved.1
  /\ contains_char "." resolved.1 = false
  /\ (no_uppercase segment -> resolved = (segment, 230%Z)).
Proof.
  intros Hnone Hsegment resolved. subst resolved.
  assert (Hdot : contains_char "." (prefix +:+ "." +:+ segment) = true).
  { rewrite contains_char_append. simpl. apply orb_true_r. }
  unfold getSimBlockType. rewrite Hnone. cbv zeta.
  rewrite split_dot_length, Hdot, (split_dot_last_segment prefix segment Hsegment).
  simpl. split; [reflexivity |]. split; [apply snake_rule_computed |].
  split; [| split; [apply toLowerCase_no_uppercase | split]].
  - intros t Ht. exact (snake_rule_functional _ _ _ Ht (snake_rule_computed segment)).
  - now rewrite snake_case_dots.
  - intros Hlower. now rewrite snake_case_unchanged.
Qed.

(** X16. Every entry of the table is in force: resolving the source type of
    an entry gives the target type and the height of that very entry, also
    for the source type that the table lists twice. *)
Theorem every_mapping_is_in_force :
  Forall (fun m => getSimBlockType (n8nType m) = (simType m, defaultHeight m))
         BLOCK_TYPE_MAPPINGS.
Proof. repeat constructor. Qed.

(** ** The identifiers carry no meaning *)

Section Identifiers.
Variable P : Platform.
Variable generator : nat -> string.

Local Abbreviation P' := (with_uuid P generator).

Lemma simBlockOf_with_uuid (id id' : string) (node : N8NNode) (index : nat) :
  anonymous (@simBlockOf P id node index)
  = anonymous (@simBlockOf P' id' node index).
Proof.
  unfold simBlockOf.
  change (@resolveBlockType P' node) with (@resolveBlockType P node).
  destruct (@resolveBlockType P node) as [[simType height] pushed].
  reflexivity.
Qed.

(** Whatever a name is bound to, it is the identifier of the last node
    other than a note that carries the name. *)
Lemma convertNodes_idmap_inv `{Platform} (nodes : list N8NNode) (name id : string) :
  st_nodeIdMap (convertNodes initial nodes 0) !! name = Some id ->
  exists before node after,
    nodes = before ++ node :: after
    /\ is_sticky node = false
    /\ node_name node = name
    /\ Forall (fun later => is_sticky later = false -> node_name later <> name) after
    /\ id = uuidv4 (length (retained before)).
Proof.
  induction nodes as [|x l IH] using rev_ind.
  - simpl. now rewrite lookup_empty.
  - rewrite convertNodes_app. simpl.
    destruct (is_sticky x) eqn:Hx.
    + rewrite convertNode_sticky by exact Hx. intros Hid.
      destruct (IH Hid) as (before & node & after & -> & Hkeep & Hname & Hlast & ->).
      exists before, node, (after ++ [x]). rewrite <- app_assoc.
      repeat split; trivial. apply Forall_app. split; [exact Hlast |].
      constructor; [congruence | constructor].
    + rewrite convertNode_retained by exact Hx. simpl.
      rewrite convertNodes_uuids. simpl.
      destruct (decide (node_name x = name)) as [Hsame | Hne].
      * rewrite Hsame, lookup_insert_eq. intros [= <-].
        exists l, x, []. auto.
      * rewrite lookup_insert_ne by exact Hne. intros Hid.
        destruct (IH Hid) as (before & node & after & -> & Hkeep & Hname & Hlast & ->).
        exists before, node, (after ++ [x]). rewrite <- app_assoc.
        repeat split; trivial. apply Forall_app. split; [exact Hlast |].
        constructor; [auto | constructor].
Qed.

Lemma resolved_links_ext (m m' : gmap string string)
    (entries : list (string * N8NConnectionData)) :
  (forall name, resolves m name = resolves m' name) ->
  resolved_links m entries = resolved_links m' entries.
Proof.
  intros Hsame. unfold resolved_links. apply List.filter_ext.
  intros l. unfold link_resolved. now rewrite !Hsame.
Qed.

Lemma connection_warnings_ext (m m' : gmap string string)
    (entries : list (string * N8NConnectionData)) :
  (forall name, resolves m name = resolves m' name) ->
  connection_warnings m entries = connection_warnings m' entries.
Proof.
  intros Hsame.
  assert (Htarget : forall c, target_warnings m c = target_warnings m' c).
  { intros c. unfold target_warnings.
    specialize (Hsame (conn_node c)). unfold resolves in Hsame.
    destruct (resolve m (conn_node c)), (resolve m' (conn_node c));
      congruence. }
  unfold connection_warnings. apply List.flat_map_ext. intros [name data].
  unfold entry_warnings. simpl.
  specialize (Hsame name). unfold resolves in Hsame.
  destruct (resolve m name), (resolve m' name); try congruence.
  apply List.flat_map_ext. intros group. now apply List.flat_map_ext.
Qed.

Lemma Forall2_common {A B C} (R : A -> C -> Prop) (S : B -> C -> Prop)
    (l : list A) (l' : list B) (k : list C) :
  Forall2 R l k -> Forall2 S l' k ->
  Forall2 (fun x x' => exists y, R x y /\ S x' y) l l'.
Proof.
  intros Hl. revert l'. induction Hl as [|x y l k Hxy _ IH]; intros l' Hl'.
  - inversion Hl'. constructor.
  - inversion Hl' as [|x' ? l'' ? Hx'y Hrest]; subst.
    constructor; [eauto | now apply IH].
Qed.

Lemma handle_rule_functional (b b' : SimBlock) (outputIndex : nat) (h h' : string) :
  block_type b = block_type b' ->
  handle_rule b outputIndex h -> handle_rule b' outputIndex h' -> h = h'.
Proof.
  intros Htype [Ht Hi | Ht Hi | Ht] [Ht' Hi' | Ht' Hi' | Ht'];
    try reflexivity; congruence.
Qed.

Hypothesis uuidv4_inj : forall i j, @uuidv4 P i = @uuidv4 P j -> i = j.
Hypothesis generator_inj : forall i j, generator i = generator j -> i = j.
Hypothesis uuidv4_nonempty : forall n, @uuidv4 P n <> EmptyString.
Hypothesis generator_nonempty : forall n, generator n <> EmptyString.

Lemma resolves_with_uuid (n8nWorkflow : N8NWorkflow) (name : string) :
  resolves (@nodeIdMapOf P n8nWorkflow) name
  = resolves (@nodeIdMapOf P' n8nWorkflow) name.
Proof.
  pose proof (@resolve_nodeIdMapOf_None P n8nWorkflow name uuidv4_nonempty) as H1.
  pose proof (@resolve_nodeIdMapOf_None P' n8nWorkflow name generator_nonempty) as H2.
  unfold resolves.
  destruct (resolve (@nodeIdMapOf P n8nWorkflow) name) as [id|] eqn:Hid;
    destruct (resolve (@nodeIdMapOf P' n8nWorkflow) name) as [id'|] eqn:Hid';
    try reflexivity.
  - assert (Hnone : Some id = None) by (apply H1, H2; reflexivity). discriminate.
  - assert (Hnone : Some id' = None) by (apply H2, H1; reflexivity). discriminate.
Qed.

(** The block drawn [k]-th is the same under both generators, its
    identifier apart. *)
Lemma blocks_with_uuid (n8nWorkflow : N8NWorkflow) (k : nat) :
  anonymous <$> result_blocks (@convertN8NToSim P n8nWorkflow) !! @uuidv4 P k
  = anonymous <$> result_blocks (@convertN8NToSim P' n8nWorkflow) !! generator k.
Proof.
  destruct (result_blocks (@convertN8NToSim P n8nWorkflow) !! @uuidv4 P k)
    as [b|] eqn:Hb.
  - destruct (@result_block_inv P _ _ _ Hb)
      as (before & node & after & Hnodes & Hkeep & Hid & ->).
    apply uuidv4_inj in Hid. subst k.
    change (generator (length (retained before)))
      with (@uuidv4 P' (length (retained before))).
    rewrite (@result_block_at P' n8nWorkflow before after node generator_inj Hnodes)
      by now apply is_sticky_false.
    simpl. f_equal. apply simBlockOf_with_uuid.
  - destruct (result_blocks (@convertN8NToSim P' n8nWorkflow) !! generator k)
      as [b'|] eqn:Hb'; [| reflexivity].
    destruct (@result_block_inv P' _ _ _ Hb')
      as (before & node & after & Hnodes & Hkeep & Hid & _).
    apply generator_inj in Hid. subst k.
    rewrite (@result_block_at P n8nWorkflow before after node uuidv4_inj Hnodes) in Hb
      by now apply is_sticky_false.
    discriminate.
Qed.

(** X17. Two runs that differ in the identifier generator alone, each
    generator without repetition and without an empty identifier, give the
    same result up to the identifiers: as many blocks, the same block for
    the identifier of the same rank (its own identifier apart), the same
    warnings, and edges that agree pairwise in their handles and run between
    the blocks of the same ranks. *)
Theorem identifiers_carry_no_meaning (n8nWorkflow : N8NWorkflow) :
  let r := @convertN8NToSim P n8nWorkflow in
  let r' := @convertN8NToSim P' n8nWorkflow in
  size (result_blocks r) = size (result_blocks r')
  /\ (forall k, anonymous <$> result_blocks r !! @uuidv4 P k
                = anonymous <$> result_blocks r' !! generator k)
  /\ result_warnings r = result_warnings r'
  /\ Forall2
       (fun e e' =>
          edge_sourceHandle e = edge_sourceHandle e'
          /\ edge_targetHandle e = edge_targetHandle e'
          /\ exists ks kt,
               edge_source e = @uuidv4 P ks /\ edge_source e' = generator ks
               /\ edge_target e = @uuidv4 P kt /\ edge_target e' = generator kt)
       (result_edges r) (result_edges r').
Proof.
  intros r r'. subst r r'.
  split; [now rewrite (@result_blocks_size P), (@result_blocks_size P') |].
  split; [apply blocks_with_uuid |].
  destruct (@convertN8NToSim_result P n8nWorkflow) as (_ & _ & _ & Hw & He).
  destruct (@convertN8NToSim_result P' n8nWorkflow) as (_ & _ & _ & Hw' & He').
  simpl in *.
  rewrite <- (resolved_links_ext _ _ _ (resolves_with_uuid n8nWorkflow)) in He'.
  rewrite <- (connection_warnings_ext _ _ _ (resolves_with_uuid n8nWorkflow)) in Hw'.
  split; [now rewrite Hw, Hw' |].
  eapply Forall2_impl; [exact (Forall2_common _ _ _ _ _ He He') |].
  intros e e' (l & (b & Hs & Ht & Hb & _ & Hrule & Htarget)
                 & (b' & Hs' & Ht' & Hb' & _ & Hrule' & Htarget')).
  simpl in *.
  apply resolve_Some in Hs, Ht, Hs', Ht'.
  destruct (@convertNodes_idmap_inv P _ _ _ Hs)
    as (before & node & after & Hnodes & Hkeep & Hname & Hlast & Hid).
  destruct (@convertNodes_idmap_inv P _ _ _ Ht)
    as (tbefore & tnode & tafter & Htnodes & Htkeep & Htname & Htlast & Htid).
  assert (Hid' : edge_source e' = generator (length (retained before))).
  { unfold nodeIdMapOf in Hs'. rewrite Hnodes, <- Hname in Hs'.
    rewrite (@convertNodes_idmap_last P') in Hs' by (trivial; now rewrite Hname).
    now injection Hs'. }
  assert (Htid' : edge_target e' = generator (length (retained tbefore))).
  { unfold nodeIdMapOf in Ht'. rewrite Htnodes, <- Htname in Ht'.
    rewrite (@convertNodes_idmap_last P') in Ht' by (trivial; now rewrite Htname).
    now injection Ht'. }
  split; [| split; [congruence | eauto 10]].
  apply (handle_rule_functional b b' (link_output l)); trivial.
  rewrite Hid in Hb. rewrite Hid' in Hb'.
  change (generator (length (retained before)))
    with (@uuidv4 P' (length (retained before))) in Hb'.
  rewrite Hnodes in Hb, Hb'.
  rewrite (@convertNodes_block_at P uuidv4_inj) in Hb by exact Hkeep.
  rewrite (@convertNodes_block_at P' generator_inj) in Hb' by exact Hkeep.
  injection Hb as <-. injection Hb' as <-.
  change (block_type (@simBlockOf P (@uuidv4 P (length (retained before))) node
                                  (length before)))
    with (block_type (anonymous (@simBlockOf P (@uuidv4 P (length (retained before)))
                                             node (length before)))).
  now rewrite (simBlockOf_with_uuid _ (generator (length (retained before)))).
Qed.

End Identifiers.

(** ** Parameters, slots and the members of [Object.prototype] *)

Section Prototype.
Context `{Platform}.

(** X19. When the generator never repeats an identifier, take the block
    stored for a node other than a note, and let its type have no sub-block
    declarations. Every parameter under a key other than [__proto__] has its
    slot: under its key, with its key and its value, of type [long-input]
    exactly when the value is a string of more than 100 characters and of
    type [short-input] exactly when it is not. There is no other slot: none
    under a key that is no parameter, and none under [__proto__], whether it
    is a parameter or not. So the block has as many slots as the node has
    parameters under other keys than [__proto__]. *)
Theorem generic_parameters_carried (n8nWorkflow : N8NWorkflow)
    (before after : list N8NNode) (node : N8NNode) :
  (forall i j, uuidv4 i = uuidv4 j -> i = j) ->
  wf_nodes n8nWorkflow = before ++ node :: after ->
  node_type node <> STICKY_NOTE ->
  exists b,
    result_blocks (convertN8NToSim n8nWorkflow)
      !! uuidv4 (length (retained before)) = Some b
    /\ block_name b = node_name node
    /\ (getBlock (block_type b) ≫= cfg_subBlocks = None ->
        size (block_subBlocks b) = size (delete "__proto__" (node_parameters node))
        /\ block_subBlocks b !! "__proto__" = None
        /\ forall key,
             key <> "__proto__" ->
             match node_parameters node !! key with
             | Some value =>
                 exists sb,
                   block_subBlocks b !! key = Some sb
                   /\ sb_id sb = key
                   /\ sb_value sb = Some (Data value)
                   /\ (sb_type sb = "long-input"
                       <-> exists s, value = JStr s /\ 100 < String.length s)
                   /\ (sb_type sb = "short-input"
                       <-> ~ exists s, value = JStr s /\ 100 < String.length s)
             | None => block_subBlocks b !! key = None
             end).
Proof.
  intros Hinj Hnodes Hkeep.
  set (blockId := uuidv4 (length (retained before))).
  exists (simBlockOf blockId node (length before)).
  split; [now apply (result_block_at n8nWorkflow before after) |].
  split; [apply simBlockOf_fields |].
  intros Hnone. rewrite simBlockOf_subBlocks in *.
  unfold convertParametersToSubBlocks. rewrite Hnone.
  split; [apply size_assign_entries |].
  split; [now rewrite lookup_assign_entries |].
  intros key Hkey. rewrite lookup_assign_entries.
  destruct (String.eqb_spec key "__proto__"); [contradiction |].
  destruct (node_parameters node !! key) as [value|]; [| reflexivity].
  exists (subBlockOfParameter key value). simpl. repeat split; trivial.
  - destruct value as [| | |s| |]; try discriminate.
    destruct (Nat.ltb_spec 100 (String.length s)); [eauto | discriminate].
  - intros (s & -> & Hs). apply Nat.ltb_lt in Hs. now rewrite Hs.
  - intros Hshort (s & -> & Hs). apply Nat.ltb_lt in Hs.
    rewrite Hs in Hshort. discriminate.
  - intros Hno. destruct value as [| | |s| |]; try reflexivity.
    destruct (Nat.ltb_spec 100 (String.length s)); [| reflexivity].
    exfalso. apply Hno. eauto.
Qed.

(** X20. When the generator never repeats an identifier, take the block
    stored for a node other than a note, and let its type have sub-block
    declarations. The block has no slot under [__proto__], declared or not.
    A declared slot whose identifier names another member of
    [Object.prototype] holds the parameter of that name when the node has
    it, and the inherited member when it has not: never an alternate key,
    the declared default or [null]. *)
Theorem prototype_names_as_slots (n8nWorkflow : N8NWorkflow)
    (before after : list N8NNode) (node : N8NNode) (defs : list SubBlockConfig) :
  (forall i j, uuidv4 i = uuidv4 j -> i = j) ->
  wf_nodes n8nWorkflow = before ++ node :: after ->
  node_type node <> STICKY_NOTE ->
  exists b,
    result_blocks (convertN8NToSim n8nWorkflow)
      !! uuidv4 (length (retained before)) = Some b
    /\ (getBlock (block_type b) ≫= cfg_subBlocks = Some defs ->
        block_subBlocks b !! "__proto__" = None
        /\ forall earlier def later,
             defs = earlier ++ def :: later ->
             def_id def ∉ def_id <$> later ->
             def_id def ∈ Object_prototype ->
             def_id def <> "__proto__" ->
             exists sb,
               block_subBlocks b !! def_id def = Some sb
               /\ sb_type sb = def_type def
               /\ sb_value sb
                  = Some match node_parameters node !! def_id def with
                         | Some v => Data v
                         | None => Inherited (def_id def)
                         end).
Proof.
  intros Hinj Hnodes Hkeep.
  set (blockId := uuidv4 (length (retained before))).
  exists (simBlockOf blockId node (length before)).
  split; [now apply (result_block_at n8nWorkflow before after) |].
  intros Hdefs. rewrite simBlockOf_subBlocks in *.
  set (simType := block_type (simBlockOf blockId node (length before))) in *.
  unfold convertParametersToSubBlocks. rewrite Hdefs.
  split.
  - apply eq_None_not_Some. intros Hsome.
    apply declare_keys in Hsome as [_ Hne]. now apply Hne.
  - intros earlier def later -> Hlast Hmember Hproto.
    exists (subBlockOfDef node simType def).
    split; [now apply declare_last |].
    unfold subBlockOfDef. simpl. split; [reflexivity |].
    rewrite subBlockValue_cases, read_inherited by exact Hmember.
    now destruct (node_parameters node !! def_id def).
Qed.

End Prototype.

(** ** The further properties on the small workflows *)

Lemma marks_inj (i j : nat) : marks i = marks j -> i = j.
Proof.
  revert j. induction i as [|i IH]; intros [|j]; simpl; intros Heq;
    try reflexivity.
  - destruct j; discriminate.
  - destruct i; discriminate.
  - injection Heq as Heq. f_equal. now apply IH.
Qed.

Lemma marks_nonempty (n : nat) : marks n <> EmptyString.
Proof. destruct n; discriminate. Qed.

Lemma sound_node_shape : node_shape sound_node.
Proof.
  exists [("name", JStr "Start"); ("type", JStr "n8n-nodes-base.webhook");
          ("position", JArr [JNum 0; JNum 0])], (JNum 0), (JNum 0).
  repeat split; eexists; (split; [reflexivity | discriminate]).
Qed.

(** X6 on a workflow of a note, a code node and a trigger node: the code
    node, first after the note, is not flagged. *)
Lemma note_first_witness :
  map_Forall
    (fun id b =>
       exists node,
         node ∈ skipn 1 (wf_nodes note_first)
         /\ block_name b = node_name node
         /\ (block_triggerMode b = true
             <-> In (node_type node) triggerTypes
                 \/ exists p, node_type node = p +:+ "Trigger"))
    (result_blocks (@convertN8NToSim Examples.demo note_first)).
Proof.
  exact (@note_first_no_positional_trigger Examples.demo note_first
           (Examples.node "Note" "n8n-nodes-base.stickyNote" [])
           (skipn 1 (wf_nodes note_first)) eq_refl eq_refl).
Defined.

(** X7 on the demo workflow: five blocks, then three edges. *)
Lemma edge_ids_witness :
  edge_id <$> result_edges (@convertN8NToSim Examples.demo Examples.demo_workflow)
  = [Examples.tally 5; Examples.tally 6; Examples.tally 7]
  /\ NoDup (edge_id <$> result_edges
                         (@convertN8NToSim Examples.demo Examples.demo_workflow)).
Proof.
  destruct (@edge_ids_are_fresh Examples.demo Examples.demo_workflow tally_inj)
    as (Hids & Hnodup & _).
  split; [exact Hids | exact Hnodup].
Defined.

(** X10 on a workflow of two notes with two connection groups. *)
Lemma only_notes_witness :
  let r := @convertN8NToSim Examples.demo notes_only in
  result_blocks r = ∅
  /\ result_edges r = []
  /\ result_warnings r = [source_warning "A"; source_warning "B"].
Proof.
  intros r.
  destruct (@only_notes_no_blocks Examples.demo notes_only)
    as (_ & Hblocks & Hedges & Hwarnings).
  { repeat constructor. }
  repeat split; assumption.
Defined.

(** X14 on a workflow whose second node has a number for its type and whose
    third node is [null]: the verdict names the second node, and the third
    is not reached. *)
Lemma validate_names_witness :
  exists msg,
    validateN8NWorkflow (JObj broken_workflow_fields)
    = Returns {| valid := false; verdict_error := Some msg |}
    /\ mentions msg "Broken".
Proof.
  apply (validate_names_first_bad_node broken_workflow_fields broken_node_fields
           [sound_node] [JNull] (JObj []) "Broken").
  - reflexivity.
  - reflexivity.
  - right. eauto.
  - constructor; [exact sound_node_shape | constructor].
  - reflexivity.
  - discriminate.
  - intros (f & a & b & [= <-] & _ & (s & Hs & _) & _). discriminate.
Defined.

(** X15 on the type of the node [Mail] of the demo workflow. *)
Lemma unlisted_type_witness :
  getSimBlockType "n8n-nodes-base.sendGrid" = ("send_grid", 230%Z)
  /\ snake_rule "sendGrid" "send_grid".
Proof.
  destruct (unlisted_type_resolves_by_last_segment "n8n-nodes-base" "sendGrid"
              eq_refl eq_refl) as (_ & Hrule & _).
  split; [reflexivity | exact Hrule].
Defined.

(** X17 on the demo workflow, with strokes and with marks for identifiers. *)
Lemma identifiers_witness :
  let r := @convertN8NToSim Examples.demo Examples.demo_workflow in
  let r' := @convertN8NToSim (with_uuid Examples.demo marks) Examples.demo_workflow in
  size (result_blocks r) = size (result_blocks r')
  /\ result_warnings r = result_warnings r'
  /\ length (result_edges r) = length (result_edges r').
Proof.
  intros r r'.
  destruct (identifiers_carry_no_meaning Examples.demo marks
              tally_inj marks_inj tally_nonempty marks_nonempty
              Examples.demo_workflow)
    as (Hsize & _ & Hwarnings & Hedges).
  split; [exact Hsize | split; [exact Hwarnings |]].
  exact (Forall2_length _ _ _ Hedges).
Defined.

(** X18 on a workflow of one well-formed node. *)
Lemma validate_returns_witness :
  exists verdict,
    validateN8NWorkflow (JObj sound_workflow_fields) = Returns verdict
    /\ (valid verdict = true <-> workflow_shape (JObj sound_workflow_fields)).
Proof.
  destruct (validateN8NWorkflow_returns (JObj sound_workflow_fields))
    as (verdict & Hrun & Hvalid & _).
  - intros fields items [= <-] [= <-]. repeat constructor. discriminate.
  - exists verdict. split; [exact Hrun | exact Hvalid].
Defined.

(** X19 on the demo workflow: the webhook node becomes a [webhook] block, a
    type without a definition, with one slot for its one parameter; and on
    the node whose parameters have the key [__proto__]. *)
Lemma generic_parameters_witness :
  (exists b,
     result_blocks (@convertN8NToSim Examples.demo Examples.demo_workflow)
       !! Examples.tally 0 = Some b
     /\ block_name b = "Hook"
     /\ size (block_subBlocks b) = 1)
  /\ (exists b,
        result_blocks (@convertN8NToSim Examples.demo Examples.proto_workflow)
          !! Examples.tally 0 = Some b
        /\ size (block_subBlocks b) = 1
        /\ block_subBlocks b !! "__proto__" = None).
Proof.
  split.
  - destruct (@generic_parameters_carried Examples.demo Examples.demo_workflow
                [] (skipn 1 (wf_nodes Examples.demo_workflow))
                (Examples.node "Hook" "n8n-nodes-base.webhook" [("path", JStr "in")])
                tally_inj eq_refl ltac:(discriminate))
      as (b & Hb & Hname & Hslots).
    pose proof (@result_block_at Examples.demo Examples.demo_workflow
                  [] (skipn 1 (wf_nodes Examples.demo_workflow))
                  (Examples.node "Hook" "n8n-nodes-base.webhook" [("path", JStr "in")])
                  tally_inj eq_refl ltac:(discriminate)) as Hstored.
    rewrite Hb in Hstored. injection Hstored as Hstored.
    assert (Hnone : @getBlock Examples.demo (block_type b) ≫= cfg_subBlocks = None)
      by (rewrite Hstored; reflexivity).
    exists b. split; [exact Hb |]. split; [exact Hname |].
    now destruct (Hslots Hnone) as (Hsize & _).
  - destruct (@generic_parameters_carried Examples.demo Examples.proto_workflow
                [] [] Examples.proto_node tally_inj eq_refl ltac:(discriminate))
      as (b & Hb & _ & Hslots).
    pose proof (@result_block_at Examples.demo Examples.proto_workflow
                  [] [] Examples.proto_node
                  tally_inj eq_refl ltac:(discriminate)) as Hstored.
    rewrite Hb in Hstored. injection Hstored as Hstored.
    assert (Hnone : @getBlock Examples.demo (block_type b) ≫= cfg_subBlocks = None)
      by (rewrite Hstored; reflexivity).
    exists b. split; [exact Hb |].
    destruct (Hslots Hnone) as (Hsize & Hproto & _).
    split; [exact Hsize | exact Hproto].
Defined.

(** X20 on a code node without parameters, for a block type that declares
    the slots [constructor], with the default [x], and [__proto__]: one slot,
    which holds the inherited member. *)
Lemma prototype_names_witness :
  exists b sb,
    result_blocks (@convertN8NToSim inheriting Examples.only_bare)
      !! Examples.tally 0 = Some b
    /\ block_subBlocks b !! "__proto__" = None
    /\ block_subBlocks b !! "constructor" = Some sb
    /\ sb_value sb = Some (Inherited "constructor").
Proof.
  destruct (@prototype_names_as_slots inheriting Examples.only_bare
              [] [] (Examples.node "Odd" "mystery" []) inheriting_slots
              tally_inj eq_refl ltac:(discriminate))
    as (b & Hb & Hslots).
  destruct (Hslots eq_refl) as (Hproto & Hmembers).
  destruct (Hmembers []
              {| def_id := "constructor"; def_type := "short-input";
                 def_value := Some (FixedValue (JStr "x")) |}
              [ {| def_id := "__proto__"; def_type := "short-input";
                   def_value := None |} ]
              eq_refl
              ltac:(apply (bool_decide_unpack _); vm_compute; exact I)
              ltac:(apply (bool_decide_unpack _); vm_compute; exact I)
              ltac:(discriminate))
    as (sb & Hsb & _ & Hvalue).
  exists b, sb. repeat split; assumption.
Defined.
